(** * Taekwondo score tracker: the match service and its audit trail

    A shallow embedding of [app/models.py] and [app/match_service.py].
    Python integers are [Z]; the service object together with the
    database it talks to is a [World] threaded through a small
    state-and-exception monad, so that a raised exception keeps every
    write that was committed before it. *)

From Stdlib Require Import ZArith String List Lia.
From stdpp Require Import base option list gmap strings pretty.

Local Open Scope string_scope.
Local Open Scope Z_scope.

(** ** app/models.py *)

Inductive TeamColor := BLUE | RED.

Inductive MatchState := NOT_STARTED | RUNNING | PAUSED | FINISHED.

#[global] Instance TeamColor_eq_dec : EqDecision TeamColor.
Proof. solve_decision. Defined.

#[global] Instance MatchState_eq_dec : EqDecision MatchState.
Proof. solve_decision. Defined.

(** [TeamColor.value] and [MatchState.value]: both are [str] enums. *)
Definition TeamColor_value (t : TeamColor) : string :=
  match t with BLUE => "BLUE" | RED => "RED" end.

Definition MatchState_value (s : MatchState) : string :=
  match s with
  | NOT_STARTED => "NOT_STARTED"
  | RUNNING => "RUNNING"
  | PAUSED => "PAUSED"
  | FINISHED => "FINISHED"
  end.

(** A timestamp is the ordinal of the clock reading that produced it:
    [datetime.utcnow()] is an input of the program, and no operation
    looks inside the value it returns. *)
Definition datetime := nat.

(** [class Match(SQLModel, table=True)].  A table model is not validated
    when it is built or assigned to, so the [ge] bounds of its fields are
    a predicate ([Match_valid], below) and not part of the type. *)
Module Match.
Record t := mk {
  id : option Z;
  blue_score : Z;
  red_score : Z;
  blue_gam_jeom : Z;
  red_gam_jeom : Z;
  current_round : Z;
  match_state : MatchState;
  created_at : datetime;
  updated_at : datetime
}.

Definition set_id (v : option Z) (m : t) : t :=
  mk v (blue_score m) (red_score m) (blue_gam_jeom m) (red_gam_jeom m)
     (current_round m) (match_state m) (created_at m) (updated_at m).
Definition set_blue_score (v : Z) (m : t) : t :=
  mk (id m) v (red_score m) (blue_gam_jeom m) (red_gam_jeom m)
     (current_round m) (match_state m) (created_at m) (updated_at m).
Definition set_red_score (v : Z) (m : t) : t :=
  mk (id m) (blue_score m) v (blue_gam_jeom m) (red_gam_jeom m)
     (current_round m) (match_state m) (created_at m) (updated_at m).
Definition set_blue_gam_jeom (v : Z) (m : t) : t :=
  mk (id m) (blue_score m) (red_score m) v (red_gam_jeom m)
     (current_round m) (match_state m) (created_at m) (updated_at m).
Definition set_red_gam_jeom (v : Z) (m : t) : t :=
  mk (id m) (blue_score m) (red_score m) (blue_gam_jeom m) v
     (current_round m) (match_state m) (created_at m) (updated_at m).
Definition set_current_round (v : Z) (m : t) : t :=
  mk (id m) (blue_score m) (red_score m) (blue_gam_jeom m) (red_gam_jeom m)
     v (match_state m) (created_at m) (updated_at m).
Definition set_match_state (v : MatchState) (m : t) : t :=
  mk (id m) (blue_score m) (red_score m) (blue_gam_jeom m) (red_gam_jeom m)
     (current_round m) v (created_at m) (updated_at m).
Definition set_updated_at (v : datetime) (m : t) : t :=
  mk (id m) (blue_score m) (red_score m) (blue_gam_jeom m) (red_gam_jeom m)
     (current_round m) (match_state m) (created_at m) v.
End Match.

(** [class MatchEvent(SQLModel, table=True)]. *)
Module MatchEvent.
Record t := mk {
  id : option Z;
  match_id : Z;
  event_type : string;
  team_color : option TeamColor;
  points_awarded : Z;
  round_number : Z;
  blue_score_before : Z;
  red_score_before : Z;
  blue_gam_jeom_before : Z;
  red_gam_jeom_before : Z;
  blue_score_after : Z;
  red_score_after : Z;
  blue_gam_jeom_after : Z;
  red_gam_jeom_after : Z;
  notes : option string;
  created_at : datetime
}.

Definition set_id (v : option Z) (e : t) : t :=
  mk v (match_id e) (event_type e) (team_color e) (points_awarded e)
     (round_number e) (blue_score_before e) (red_score_before e)
     (blue_gam_jeom_before e) (red_gam_jeom_before e) (blue_score_after e)
     (red_score_after e) (blue_gam_jeom_after e) (red_gam_jeom_after e)
     (notes e) (created_at e).
End MatchEvent.

(** The request schemas ([table=False]).  Their [Field] bounds are checked
    when the object is built, before the service sees it; they are the
    [_valid] predicates below. *)
Module ScoreAction.
Record t := mk { team_color : TeamColor; points : Z; match_id : Z }.
End ScoreAction.

Module GamJeomAction.
Record t := mk {
  penalized_team : TeamColor; match_id : Z; notes : option string }.
End GamJeomAction.

Module MatchStateChange.
Record t := mk { match_id : Z; new_state : MatchState; notes : option string }.
End MatchStateChange.

Module RoundChange.
Record t := mk { match_id : Z; new_round : Z }.
End RoundChange.

Module MatchReset.
Record t := mk { match_id : Z; notes : option string }.
End MatchReset.

(** [class CurrentMatchState(SQLModel, table=False)]. *)
Module CurrentMatchState.
Record t := mk {
  blue_score : Z;
  red_score : Z;
  blue_gam_jeom : Z;
  red_gam_jeom : Z;
  current_round : Z;
  match_state : MatchState
}.
End CurrentMatchState.

(** [points: int = Field(ge=1, le=10)] *)
Definition ScoreAction_valid (a : ScoreAction.t) : Prop :=
  1 <= ScoreAction.points a <= 10.

(** [new_round: int = Field(ge=1)] *)
Definition RoundChange_valid (c : RoundChange.t) : Prop :=
  1 <= RoundChange.new_round c.

(** The [ge] bounds declared on the columns of [Match]. *)
Definition Match_valid (m : Match.t) : Prop :=
  0 <= Match.blue_score m /\ 0 <= Match.red_score m /\
  0 <= Match.blue_gam_jeom m /\ 0 <= Match.red_gam_jeom m /\
  1 <= Match.current_round m.

(** ** Exceptions and the world *)

Inductive Exception :=
| ValueError (msg : string)
| ValidationError (fields : list string).

Inductive Result (A : Type) :=
| Ok (a : A)
| Raise (e : Exception).
Arguments Ok {A} a.
Arguments Raise {A} e.

(** The service instance ([_current_match_id]), the two tables with their
    primary-key sequences, and the number of clock readings made so far. *)
Record World := mkWorld {
  _current_match_id : option Z;
  matches : gmap Z Match.t;
  matches_seq : Z;
  match_events : list MatchEvent.t;
  match_events_seq : Z;
  clock : nat
}.

Definition M (A : Type) : Type := World -> Result A * World.

Definition ret {A} (a : A) : M A := fun w => (Ok a, w).

Definition raise {A} (e : Exception) : M A := fun w => (Raise e, w).

Definition bind {A B} (c : M A) (k : A -> M B) : M B :=
  fun w =>
    match c w with
    | (Ok a, w') => k a w'
    | (Raise e, w') => (Raise e, w')
    end.

Notation "'let*' x ':=' c 'in' k" := (bind c (fun x => k))
  (at level 10, x name, c at level 100, k at level 200).

(** A constructor that may raise but touches nothing. *)
Definition lift {A} (r : Result A) : M A := fun w => (r, w).

Definition result {A} (c : M A) (w : World) : Result A := fst (c w).
Definition after {A} (c : M A) (w : World) : World := snd (c w).

(** [datetime.utcnow()] *)
Definition utcnow : M datetime :=
  fun w =>
    (Ok (clock w),
     mkWorld (_current_match_id w) (matches w) (matches_seq w)
             (match_events w) (match_events_seq w) (S (clock w))).

(** ** The persistence adapter *)

(** Modelled from the spec: [app.database] ([get_session] and the session
    it yields) is not among the sources.  Section 6 of the specification
    gives the adapter a read by id, a full-record upsert that assigns the
    id of a new record, and an insert-only append of events. *)
Definition getMatch (k : Z) : M (option Match.t) :=
  fun w => (Ok (Match.set_id (Some k) <$> matches w !! k), w).

(** Modelled from the spec: [session.add(match); session.commit()] and,
    for a new record, [session.refresh(match)].  The result is the record
    as the session holds it afterwards, primary key included. *)
Definition saveMatch (m : Match.t) : M Match.t :=
  fun w =>
    match Match.id m with
    | Some k =>
        (Ok m,
         mkWorld (_current_match_id w) (<[k := m]> (matches w)) (matches_seq w)
                 (match_events w) (match_events_seq w) (clock w))
    | None =>
        let k := matches_seq w in
        let m' := Match.set_id (Some k) m in
        (Ok m',
         mkWorld (_current_match_id w) (<[k := m']> (matches w)) (k + 1)
                 (match_events w) (match_events_seq w) (clock w))
    end.

(** Modelled from the spec: [session.add(event); session.commit()], the
    insert-only append.  Events are kept in insertion order. *)
Definition appendEvent (e : MatchEvent.t) : M unit :=
  fun w =>
    let k := match_events_seq w in
    (Ok tt,
     mkWorld (_current_match_id w) (matches w) (matches_seq w)
             (match_events w ++ [MatchEvent.set_id (Some k) e])%list (k + 1)
             (clock w)).

(** ** Model constructors *)

(** [Match()]: the column defaults; the two [default_factory] calls read
    the clock in field order. *)
Definition Match_init : M Match.t :=
  let* c := utcnow in
  let* u := utcnow in
  ret (Match.mk None 0 0 0 0 1 NOT_STARTED c u).

(** [CurrentMatchState()]: defaults are taken as they are. *)
Definition CurrentMatchState_default : CurrentMatchState.t :=
  CurrentMatchState.mk 0 0 0 0 1 NOT_STARTED.

Definition check_ge (name : string) (bound v : Z) : list string :=
  if v <? bound then [name] else [].

(** [CurrentMatchState(blue_score=..., ...)]: a schema model checks the
    [ge] bound of every field it is given and raises one error naming all
    the fields that fail. *)
Definition CurrentMatchState_init
    (blue_score red_score blue_gam_jeom red_gam_jeom current_round : Z)
    (match_state : MatchState) : Result CurrentMatchState.t :=
  match (check_ge "blue_score" 0 blue_score
         ++ check_ge "red_score" 0 red_score
         ++ check_ge "blue_gam_jeom" 0 blue_gam_jeom
         ++ check_ge "red_gam_jeom" 0 red_gam_jeom
         ++ check_ge "current_round" 1 current_round)%list with
  | [] => Ok (CurrentMatchState.mk blue_score red_score blue_gam_jeom
                red_gam_jeom current_round match_state)
  | errs => Raise (ValidationError errs)
  end.

(** ** app/match_service.py: [class MatchService] *)

(** Reading and assigning the attribute [self._current_match_id]. *)
Definition self_current_match_id : M (option Z) :=
  fun w => (Ok (_current_match_id w), w).

Definition assign_current_match_id (v : option Z) : M unit :=
  fun w =>
    (Ok tt,
     mkWorld v (matches w) (matches_seq w)
             (match_events w) (match_events_seq w) (clock w)).

Definition get_current_match_id : M (option Z) := self_current_match_id.

Definition set_current_match_id (match_id : Z) : M unit :=
  assign_current_match_id (Some match_id).

Definition _record_event
    (match_id : Z) (event_type : string) (round_number : Z)
    (blue_score_before red_score_before : Z)
    (blue_gam_jeom_before red_gam_jeom_before : Z)
    (blue_score_after red_score_after : Z)
    (blue_gam_jeom_after red_gam_jeom_after : Z)
    (team_color : option TeamColor) (points_awarded : Z)
    (notes : option string) : M unit :=
  let* now := utcnow in
  appendEvent
    (MatchEvent.mk None match_id event_type team_color points_awarded
       round_number blue_score_before red_score_before
       blue_gam_jeom_before red_gam_jeom_before
       blue_score_after red_score_after
       blue_gam_jeom_after red_gam_jeom_after notes now).

Definition create_new_match : M Z :=
  let* m := Match_init in
  let* m := saveMatch m in
  match Match.id m with
  | None => raise (ValueError "Failed to create match")
  | Some mid =>
      let* _ := assign_current_match_id (Some mid) in
      let* _ := _record_event mid "MATCH_CREATED" 1 0 0 0 0 0 0 0 0
                  None 0 (Some "New match created") in
      ret mid
  end.

Definition get_current_state : M CurrentMatchState.t :=
  let* cur := self_current_match_id in
  match cur with
  | None => ret CurrentMatchState_default
  | Some k =>
      let* found := getMatch k in
      match found with
      | None => ret CurrentMatchState_default
      | Some m =>
          lift (CurrentMatchState_init
                  (Match.blue_score m) (Match.red_score m)
                  (Match.blue_gam_jeom m) (Match.red_gam_jeom m)
                  (Match.current_round m) (Match.match_state m))
      end
  end.

Definition add_score (action : ScoreAction.t) : M CurrentMatchState.t :=
  let* cur := self_current_match_id in
  match cur with
  | None => raise (ValueError "No active match")
  | Some k =>
      let* found := getMatch k in
      match found with
      | None => raise (ValueError "Match not found")
      | Some m =>
          let blue_before := Match.blue_score m in
          let red_before := Match.red_score m in
          let blue_gj_before := Match.blue_gam_jeom m in
          let red_gj_before := Match.red_gam_jeom m in
          let m :=
            if decide (ScoreAction.team_color action = BLUE)
            then Match.set_blue_score
                   (Match.blue_score m + ScoreAction.points action) m
            else Match.set_red_score
                   (Match.red_score m + ScoreAction.points action) m in
          let* now := utcnow in
          let m := Match.set_updated_at now m in
          let* m := saveMatch m in
          let* _ :=
            match Match.id m with
            | Some mid =>
                _record_event mid "SCORE" (Match.current_round m)
                  blue_before red_before blue_gj_before red_gj_before
                  (Match.blue_score m) (Match.red_score m)
                  (Match.blue_gam_jeom m) (Match.red_gam_jeom m)
                  (Some (ScoreAction.team_color action))
                  (ScoreAction.points action)
                  (Some (TeamColor_value (ScoreAction.team_color action)
                         +:+ " team scored "
                         +:+ pretty (ScoreAction.points action) +:+ " points"))
            | None => ret tt
            end in
          get_current_state
      end
  end.

Definition add_gam_jeom (action : GamJeomAction.t) : M CurrentMatchState.t :=
  let* cur := self_current_match_id in
  match cur with
  | None => raise (ValueError "No active match")
  | Some k =>
      let* found := getMatch k in
      match found with
      | None => raise (ValueError "Match not found")
      | Some m =>
          let blue_before := Match.blue_score m in
          let red_before := Match.red_score m in
          let blue_gj_before := Match.blue_gam_jeom m in
          let red_gj_before := Match.red_gam_jeom m in
          let m :=
            if decide (GamJeomAction.penalized_team action = BLUE)
            then
              let m := Match.set_blue_gam_jeom (Match.blue_gam_jeom m + 1) m in
              Match.set_red_score (Match.red_score m + 1) m
            else
              let m := Match.set_red_gam_jeom (Match.red_gam_jeom m + 1) m in
              Match.set_blue_score (Match.blue_score m + 1) m in
          let* now := utcnow in
          let m := Match.set_updated_at now m in
          let* m := saveMatch m in
          let opposing_team :=
            if decide (GamJeomAction.penalized_team action = BLUE)
            then RED else BLUE in
          let* _ :=
            match Match.id m with
            | Some mid =>
                _record_event mid "GAM_JEOM" (Match.current_round m)
                  blue_before red_before blue_gj_before red_gj_before
                  (Match.blue_score m) (Match.red_score m)
                  (Match.blue_gam_jeom m) (Match.red_gam_jeom m)
                  (Some (GamJeomAction.penalized_team action)) 1
                  (Some ("Gam-Jeom penalty for "
                         +:+ TeamColor_value (GamJeomAction.penalized_team action)
                         +:+ ", point awarded to "
                         +:+ TeamColor_value opposing_team))
            | None => ret tt
            end in
          get_current_state
      end
  end.

Definition change_match_state (change : MatchStateChange.t)
    : M CurrentMatchState.t :=
  let* cur := self_current_match_id in
  match cur with
  | None => raise (ValueError "No active match")
  | Some k =>
      let* found := getMatch k in
      match found with
      | None => raise (ValueError "Match not found")
      | Some m =>
          let old_state := Match.match_state m in
          let m := Match.set_match_state (MatchStateChange.new_state change) m in
          let* now := utcnow in
          let m := Match.set_updated_at now m in
          let* m := saveMatch m in
          let* _ :=
            match Match.id m with
            | Some mid =>
                _record_event mid "STATE_CHANGE" (Match.current_round m)
                  (Match.blue_score m) (Match.red_score m)
                  (Match.blue_gam_jeom m) (Match.red_gam_jeom m)
                  (Match.blue_score m) (Match.red_score m)
                  (Match.blue_gam_jeom m) (Match.red_gam_jeom m)
                  None 0
                  (Some ("Match state changed from "
                         +:+ MatchState_value old_state +:+ " to "
                         +:+ MatchState_value (MatchStateChange.new_state change)))
            | None => ret tt
            end in
          get_current_state
      end
  end.

Definition next_round (change : RoundChange.t) : M CurrentMatchState.t :=
  let* cur := self_current_match_id in
  match cur with
  | None => raise (ValueError "No active match")
  | Some k =>
      let* found := getMatch k in
      match found with
      | None => raise (ValueError "Match not found")
      | Some m =>
          let old_round := Match.current_round m in
          let m := Match.set_current_round (RoundChange.new_round change) m in
          let* now := utcnow in
          let m := Match.set_updated_at now m in
          let* m := saveMatch m in
          let* _ :=
            match Match.id m with
            | Some mid =>
                _record_event mid "ROUND_CHANGE" (RoundChange.new_round change)
                  (Match.blue_score m) (Match.red_score m)
                  (Match.blue_gam_jeom m) (Match.red_gam_jeom m)
                  (Match.blue_score m) (Match.red_score m)
                  (Match.blue_gam_jeom m) (Match.red_gam_jeom m)
                  None 0
                  (Some ("Round changed from " +:+ pretty old_round +:+ " to "
                         +:+ pretty (RoundChange.new_round change)))
            | None => ret tt
            end in
          get_current_state
      end
  end.

Definition reset_match (reset_action : MatchReset.t) : M CurrentMatchState.t :=
  let* cur := self_current_match_id in
  match cur with
  | None => raise (ValueError "No active match")
  | Some k =>
      let* found := getMatch k in
      match found with
      | None => raise (ValueError "Match not found")
      | Some m =>
          let blue_before := Match.blue_score m in
          let red_before := Match.red_score m in
          let blue_gj_before := Match.blue_gam_jeom m in
          let red_gj_before := Match.red_gam_jeom m in
          let round_before := Match.current_round m in
          let m := Match.set_blue_score 0 m in
          let m := Match.set_red_score 0 m in
          let m := Match.set_blue_gam_jeom 0 m in
          let m := Match.set_red_gam_jeom 0 m in
          let m := Match.set_current_round 1 m in
          let m := Match.set_match_state NOT_STARTED m in
          let* now := utcnow in
          let m := Match.set_updated_at now m in
          let* m := saveMatch m in
          let* _ :=
            match Match.id m with
            | Some mid =>
                _record_event mid "RESET" 1
                  blue_before red_before blue_gj_before red_gj_before
                  0 0 0 0
                  None 0
                  (Some ("Match reset: Scores " +:+ pretty blue_before +:+ "-"
                         +:+ pretty red_before +:+ ", Gam-Jeom "
                         +:+ pretty blue_gj_before +:+ "-" +:+ pretty red_gj_before
                         +:+ ", Round " +:+ pretty round_before
                         +:+ " â†’ All reset to 0-0, 0-0, Round 1"))
            | None => ret tt
            end in
          get_current_state
      end
  end.

(** [MatchService()] in front of an empty database. *)
Definition init_world : World := mkWorld None ∅ 1 [] 1 0.

(** ** Vocabulary of the properties *)

(** The service points at [k] and the store holds [m] under that id. *)
Definition selected (w : World) (k : Z) (m : Match.t) : Prop :=
  _current_match_id w = Some k /\ matches w !! k = Some m.

(** No id is selected, or the selected id has no record. *)
Definition no_valid_selection (w : World) : Prop :=
  match _current_match_id w with
  | None => True
  | Some k => matches w !! k = None
  end.

(** The specification's [NoActiveMatch]: the two [ValueError]s of the
    guard in front of every operation on the selected match. *)
Definition NoActiveMatch (e : Exception) : Prop :=
  e = ValueError "No active match" \/ e = ValueError "Match not found".

Definition raises_NoActiveMatch {A} (c : M A) (w : World) : Prop :=
  exists e, result c w = Raise e /\ NoActiveMatch e.

Definition opponent (t : TeamColor) : TeamColor :=
  match t with BLUE => RED | RED => BLUE end.

Definition score_of (t : TeamColor) (m : Match.t) : Z :=
  match t with BLUE => Match.blue_score m | RED => Match.red_score m end.

Definition gam_jeom_of (t : TeamColor) (m : Match.t) : Z :=
  match t with BLUE => Match.blue_gam_jeom m | RED => Match.red_gam_jeom m end.

(** The four counters of a match, and the two snapshots of an event. *)
Definition counters (m : Match.t) : Z * Z * Z * Z :=
  (Match.blue_score m, Match.red_score m,
   Match.blue_gam_jeom m, Match.red_gam_jeom m).

Definition before_of (e : MatchEvent.t) : Z * Z * Z * Z :=
  (MatchEvent.blue_score_before e, MatchEvent.red_score_before e,
   MatchEvent.blue_gam_jeom_before e, MatchEvent.red_gam_jeom_before e).

Definition after_of (e : MatchEvent.t) : Z * Z * Z * Z :=
  (MatchEvent.blue_score_after e, MatchEvent.red_score_after e,
   MatchEvent.blue_gam_jeom_after e, MatchEvent.red_gam_jeom_after e).

(** What [get_current_state] builds from a record. *)
Definition view (m : Match.t) : Result CurrentMatchState.t :=
  CurrentMatchState_init
    (Match.blue_score m) (Match.red_score m)
    (Match.blue_gam_jeom m) (Match.red_gam_jeom m)
    (Match.current_round m) (Match.match_state m).

(** The world after one operation on the selected match [k]: the record
    rewritten, one event appended, the clock read twice. *)
Definition committed (w : World) (k : Z) (m' : Match.t) (ev : MatchEvent.t)
    : World :=
  mkWorld (Some k) (<[k := m']> (matches w)) (matches_seq w)
          (match_events w ++ [ev])%list (match_events_seq w + 1)
          (S (S (clock w))).

(** The six mutating operations, as a caller invokes them. *)
Inductive Operation :=
| Create
| AddScore (action : ScoreAction.t)
| AddGamJeom (action : GamJeomAction.t)
| ChangeState (change : MatchStateChange.t)
| NextRound (change : RoundChange.t)
| Reset (reset_action : MatchReset.t).

Inductive Reply :=
| MatchId (match_id : Z)
| Snapshot (state : CurrentMatchState.t).

Definition perform (op : Operation) : M Reply :=
  match op with
  | Create => let* k := create_new_match in ret (MatchId k)
  | AddScore a => let* s := add_score a in ret (Snapshot s)
  | AddGamJeom a => let* s := add_gam_jeom a in ret (Snapshot s)
  | ChangeState c => let* s := change_match_state c in ret (Snapshot s)
  | NextRound c => let* s := next_round c in ret (Snapshot s)
  | Reset r => let* s := reset_match r in ret (Snapshot s)
  end.

(** What [perform] hands back for the outcome of a state-returning call. *)
Definition reply (r : Result CurrentMatchState.t) : Result Reply :=
  match r with Ok s => Ok (Snapshot s) | Raise e => Raise e end.

Definition is_create (op : Operation) : bool :=
  match op with Create => true | _ => false end.

(** The round an operation on a match in state [m] passes to
    [_record_event]: the new round for [next_round], 1 for [create] and
    [reset_match], the round of the match otherwise. *)
Definition recorded_round (op : Operation) (m : Match.t) : Z :=
  match op with
  | NextRound c => RoundChange.new_round c
  | Create | Reset _ => 1
  | _ => Match.current_round m
  end.

(** The bounds the request schemas enforce when a request is built. *)
Definition Operation_valid (op : Operation) : Prop :=
  match op with
  | AddScore a => ScoreAction_valid a
  | NextRound c => RoundChange_valid c
  | _ => True
  end.

(** The record an operation mutates, as it stands just before: the
    selected one, or for [Create] the fresh [Match()] and the id the
    store is about to give it. *)
Definition acts_on (op : Operation) (w : World) (k : Z) (m : Match.t) : Prop :=
  match op with
  | Create => k = matches_seq w /\ result Match_init w = Ok m
  | _ => selected w k m
  end.

(** A run of scoring and penalty calls, and what it should add up to. *)
Inductive Call :=
| Score (action : ScoreAction.t)
| GamJeom (action : GamJeomAction.t).

Definition Call_valid (c : Call) : Prop :=
  match c with Score a => ScoreAction_valid a | GamJeom _ => True end.

Definition call (c : Call) : M CurrentMatchState.t :=
  match c with Score a => add_score a | GamJeom a => add_gam_jeom a end.

Fixpoint calls (cs : list Call) : M unit :=
  match cs with
  | [] => ret tt
  | c :: cs' => let* _ := call c in calls cs'
  end.

Definition points_for (t : TeamColor) (c : Call) : Z :=
  match c with
  | Score a =>
      if decide (ScoreAction.team_color a = t) then ScoreAction.points a else 0
  | GamJeom a =>
      if decide (GamJeomAction.penalized_team a = opponent t) then 1 else 0
  end.

Fixpoint total_for (t : TeamColor) (cs : list Call) : Z :=
  match cs with
  | [] => 0
  | c :: cs' => points_for t c + total_for t cs'
  end.

(** A script of operations, stopped by the first exception. *)
Fixpoint perform_all (ops : list Operation) : M unit :=
  match ops with
  | [] => ret tt
  | op :: ops' => let* _ := perform op in perform_all ops'
  end.

(** Sample inputs: a service that has just created its first match. *)
Definition first_match_world : World := after create_new_match init_world.

Definition first_match : Match.t :=
  Match.mk (Some 1) 0 0 0 0 1 NOT_STARTED 0%nat 1%nat.

(** ** app/models.py: building a request *)

Definition check_le (name : string) (bound v : Z) : list string :=
  if bound <? v then [name] else [].

(** [len] of a Python [str]: the number of characters.  A string here
    is the UTF-8 text of the literal, in which every character has
    exactly one byte that is not a continuation byte (10xxxxxx). *)
Definition is_continuation (a : Ascii.ascii) : bool :=
  match a with
  | Ascii.Ascii _ _ _ _ _ _ b6 b7 => b7 && negb b6
  end.

Fixpoint str_len (text : string) : nat :=
  match text with
  | EmptyString => 0%nat
  | String a rest =>
      ((if is_continuation a then 0 else 1) + str_len rest)%nat
  end.

Definition check_max_length (name : string) (bound : nat) (v : option string)
    : list string :=
  match v with
  | Some text => if (bound <? str_len text)%nat then [name] else []
  | None => []
  end.

(** A schema model is built only if no field fails its check. *)
Definition validated {A} (errs : list string) (a : A) : Result A :=
  match errs with
  | [] => Ok a
  | _ => Raise (ValidationError errs)
  end.

(** [ScoreAction(team_color=..., points=..., match_id=...)] *)
Definition ScoreAction_init (team_color : TeamColor) (points match_id : Z)
    : Result ScoreAction.t :=
  validated (check_ge "points" 1 points ++ check_le "points" 10 points)%list
    (ScoreAction.mk team_color points match_id).

(** [GamJeomAction(penalized_team=..., match_id=..., notes=...)] *)
Definition GamJeomAction_init (penalized_team : TeamColor) (match_id : Z)
    (notes : option string) : Result GamJeomAction.t :=
  validated (check_max_length "notes" 500 notes)
    (GamJeomAction.mk penalized_team match_id notes).

(** [MatchStateChange(match_id=..., new_state=..., notes=...)] *)
Definition MatchStateChange_init (match_id : Z) (new_state : MatchState)
    (notes : option string) : Result MatchStateChange.t :=
  validated (check_max_length "notes" 500 notes)
    (MatchStateChange.mk match_id new_state notes).

(** [RoundChange(match_id=..., new_round=...)] *)
Definition RoundChange_init (match_id new_round : Z)
    : Result RoundChange.t :=
  validated (check_ge "new_round" 1 new_round)
    (RoundChange.mk match_id new_round).

(** [MatchReset(match_id=..., notes=...)] *)
Definition MatchReset_init (match_id : Z) (notes : option string)
    : Result MatchReset.t :=
  validated (check_max_length "notes" 500 notes)
    (MatchReset.mk match_id notes).

(** ** app/scoring_ui.py: [class ScoringUI] *)

(** The widget toolkit is not part of the repository.  A label is
    represented by the text it shows ([None]: the attribute is still
    [None]), a notification by the arguments [ui.notify] was called with,
    the logger by the list of messages it was given; classes and styles
    are left out.  The text of an exception is kept as the exception
    itself, since the wording of a validation error belongs to the
    validation library. *)
Inductive Text :=
| Plain (s : string)
| WithError (prefix : string) (e : Exception).

Module Notification.
Record t := mk {
  message : Text;
  type : string;
  position : option string;
  timeout : option Z
}.
End Notification.

Record ScoringUI := mkScoringUI {
  blue_score_label : option string;
  red_score_label : option string;
  blue_gam_jeom_label : option string;
  red_gam_jeom_label : option string;
  round_label : option string
}.

(** The two global instances, [match_service] and [scoring_ui], with what
    the user has been notified of and what has been logged. *)
Record App := mkApp {
  match_service : World;
  scoring_ui : ScoringUI;
  notifications : list Notification.t;
  logged : list Text
}.

Definition UI (A : Type) : Type := App -> Result A * App.

Definition ui_ret {A} (a : A) : UI A := fun st => (Ok a, st).

Definition ui_bind {A B} (c : UI A) (k : A -> UI B) : UI B :=
  fun st =>
    match c st with
    | (Ok a, st') => k a st'
    | (Raise e, st') => (Raise e, st')
    end.

Notation "'let+' x ':=' c 'in' k" := (ui_bind c (fun x => k))
  (at level 10, x name, c at level 100, k at level 200).

(** A call into [match_service]. *)
Definition service {A} (c : M A) : UI A :=
  fun st =>
    let (r, w) := c (match_service st) in
    (r, mkApp w (scoring_ui st) (notifications st) (logged st)).

(** Building a request: it may raise, it touches nothing. *)
Definition construct {A} (r : Result A) : UI A := fun st => (r, st).

(** [try: body except Exception as e: handler] *)
Definition try_except (body : UI unit) (handler : Exception -> UI unit)
    : UI unit :=
  fun st =>
    match body st with
    | (Ok _, st') => (Ok tt, st')
    | (Raise e, st') => handler e st'
    end.

(** [logger.error(...)] *)
Definition logger_error (text : Text) : UI unit :=
  fun st =>
    (Ok tt,
     mkApp (match_service st) (scoring_ui st) (notifications st)
           (logged st ++ [text])%list).

(** [ui.notify(...)] *)
Definition ui_notify (message : Text) (type : string)
    (position : option string) (timeout : option Z) : UI unit :=
  fun st =>
    (Ok tt,
     mkApp (match_service st) (scoring_ui st)
           (notifications st
            ++ [Notification.mk message type position timeout])%list
           (logged st)).

(** The [except] clause every handler ends with. *)
Definition report (prefix : string) (e : Exception) : UI unit :=
  let+ _ := logger_error (WithError prefix e) in
  ui_notify (WithError prefix e) "negative" None None.

(** [if label: label.set_text(text)] *)
Definition set_text (text : string) (label : option string) : option string :=
  match label with
  | Some _ => Some text
  | None => None
  end.

Definition _update_display : UI unit :=
  try_except
    (let+ current_state := service get_current_state in
     fun st =>
       let u := scoring_ui st in
       (Ok tt,
        mkApp (match_service st)
          (mkScoringUI
             (set_text (pretty (CurrentMatchState.blue_score current_state))
                (blue_score_label u))
             (set_text (pretty (CurrentMatchState.red_score current_state))
                (red_score_label u))
             (set_text
                (pretty (CurrentMatchState.blue_gam_jeom current_state))
                (blue_gam_jeom_label u))
             (set_text
                (pretty (CurrentMatchState.red_gam_jeom current_state))
                (red_gam_jeom_label u))
             (set_text
                ("ROUND "
                 +:+ pretty (CurrentMatchState.current_round current_state))
                (round_label u)))
          (notifications st) (logged st)))
    (report "Error updating display: ").

Definition _add_blue_score (points : Z) : UI unit :=
  try_except
    (let+ match_id := service get_current_match_id in
     match match_id with
     | None => ui_ret tt
     | Some match_id =>
         let+ action := construct (ScoreAction_init BLUE points match_id) in
         let+ _ := service (add_score action) in
         _update_display
     end)
    (report "Error adding blue score: ").

Definition _add_red_score (points : Z) : UI unit :=
  try_except
    (let+ match_id := service get_current_match_id in
     match match_id with
     | None => ui_ret tt
     | Some match_id =>
         let+ action := construct (ScoreAction_init RED points match_id) in
         let+ _ := service (add_score action) in
         _update_display
     end)
    (report "Error adding red score: ").

Definition _add_blue_gam_jeom : UI unit :=
  try_except
    (let+ match_id := service get_current_match_id in
     match match_id with
     | None => ui_ret tt
     | Some match_id =>
         let+ action :=
           construct (GamJeomAction_init BLUE match_id
                        (Some "Blue team Gam-Jeom penalty")) in
         let+ _ := service (add_gam_jeom action) in
         let+ _ := _update_display in
         ui_notify
           (Plain "Gam-Jeom penalty applied to BLUE team. 1 point awarded to RED team.")
           "warning" (Some "top") (Some 3000)
     end)
    (report "Error applying blue Gam-Jeom: ").

Definition _add_red_gam_jeom : UI unit :=
  try_except
    (let+ match_id := service get_current_match_id in
     match match_id with
     | None => ui_ret tt
     | Some match_id =>
         let+ action :=
           construct (GamJeomAction_init RED match_id
                        (Some "Red team Gam-Jeom penalty")) in
         let+ _ := service (add_gam_jeom action) in
         let+ _ := _update_display in
         ui_notify
           (Plain "Gam-Jeom penalty applied to RED team. 1 point awarded to BLUE team.")
           "warning" (Some "top") (Some 3000)
     end)
    (report "Error applying red Gam-Jeom: ").

Definition _start_match : UI unit :=
  try_except
    (let+ match_id := service get_current_match_id in
     match match_id with
     | None => ui_ret tt
     | Some match_id =>
         let+ change :=
           construct (MatchStateChange_init match_id RUNNING
                        (Some "Match started")) in
         let+ _ := service (change_match_state change) in
         let+ _ := _update_display in
         ui_notify (Plain "Pertandingan dimulai!") "positive"
           (Some "top") (Some 2000)
     end)
    (report "Error starting match: ").

Definition _pause_match : UI unit :=
  try_except
    (let+ match_id := service get_current_match_id in
     match match_id with
     | None => ui_ret tt
     | Some match_id =>
         let+ change :=
           construct (MatchStateChange_init match_id PAUSED
                        (Some "Match paused")) in
         let+ _ := service (change_match_state change) in
         let+ _ := _update_display in
         ui_notify (Plain "Pertandingan dijeda!") "info"
           (Some "top") (Some 2000)
     end)
    (report "Error pausing match: ").

Definition _reset_match : UI unit :=
  try_except
    (let+ match_id := service get_current_match_id in
     match match_id with
     | None => ui_ret tt
     | Some match_id =>
         let+ reset_action :=
           construct (MatchReset_init match_id (Some "Manual match reset")) in
         let+ _ := service (reset_match reset_action) in
         let+ _ := _update_display in
         ui_notify
           (Plain "Match has been reset! All scores and round returned to initial values.")
           "info" (Some "top") (Some 3000)
     end)
    (report "Error resetting match: ").

Definition _next_round : UI unit :=
  try_except
    (let+ match_id := service get_current_match_id in
     match match_id with
     | None => ui_ret tt
     | Some match_id =>
         let+ current_state := service get_current_state in
         let new_round_number :=
           CurrentMatchState.current_round current_state + 1 in
         let+ change :=
           construct (RoundChange_init match_id new_round_number) in
         let+ _ := service (next_round change) in
         let+ _ := _update_display in
         ui_notify
           (Plain ("Round " +:+ pretty new_round_number +:+ " started!"))
           "positive" (Some "top") (Some 2000)
     end)
    (report "Error advancing round: ").

(** The buttons of the page and the handler each one is wired to, as
    [_create_blue_panel], [_create_red_panel] and [_create_control_panel]
    lay them out. *)
Inductive Button :=
| BluePlus1 | BluePlus3 | BlueGamJeom
| RedPlus1 | RedPlus3 | RedGamJeom
| StartButton | PauseButton | ResetButton | NextRoundButton.

Definition on_click (b : Button) : UI unit :=
  match b with
  | BluePlus1 => _add_blue_score 1
  | BluePlus3 => _add_blue_score 3
  | BlueGamJeom => _add_blue_gam_jeom
  | RedPlus1 => _add_red_score 1
  | RedPlus3 => _add_red_score 3
  | RedGamJeom => _add_red_gam_jeom
  | StartButton => _start_match
  | PauseButton => _pause_match
  | ResetButton => _reset_match
  | NextRoundButton => _next_round
  end.

(** [_create_main_layout]: the panels create their labels with the
    initial texts. *)
Definition _create_main_layout : UI unit :=
  fun st =>
    (Ok tt,
     mkApp (match_service st)
       (mkScoringUI (Some "0") (Some "0") (Some "0") (Some "0")
          (Some "ROUND 1"))
       (notifications st) (logged st)).

(** The page function registered by [create]; its colours and style
    sheet are left out. *)
Definition scoring_page : UI unit :=
  let+ cur := service get_current_match_id in
  let+ _ :=
    match cur with
    | None => let+ _ := service create_new_match in ui_ret tt
    | Some _ => ui_ret tt
    end in
  let+ _ := _create_main_layout in
  _update_display.

(** A user at work: a series of clicks. *)
Fixpoint clicks (bs : list Button) : UI unit :=
  match bs with
  | [] => ui_ret tt
  | b :: bs' => let+ _ := on_click b in clicks bs'
  end.

(** The process at start: the two global instances as their
    constructors build them, nothing notified, nothing logged. *)
Definition init_app : App :=
  mkApp init_world (mkScoringUI None None None None None) [] [].

(** ** Vocabulary of the further properties *)

(** Every stored record is within the bounds declared on its columns. *)
Definition World_valid (w : World) : Prop :=
  forall k m, matches w !! k = Some m -> Match_valid m.

Definition is_reset (op : Operation) : bool :=
  match op with Reset _ => true | _ => false end.

(** The record an operation on the selected match [k] saves, from the
    record [m] it read and the clock reading [now]. *)
Definition mutated (op : Operation) (k : Z) (now : datetime) (m : Match.t)
    : Match.t :=
  let save bs rs bg rg cr st :=
    Match.mk (Some k) bs rs bg rg cr st (Match.created_at m) now in
  let bs := Match.blue_score m in
  let rs := Match.red_score m in
  let bg := Match.blue_gam_jeom m in
  let rg := Match.red_gam_jeom m in
  let cr := Match.current_round m in
  let st := Match.match_state m in
  match op with
  | Create => m
  | AddScore a =>
      if decide (ScoreAction.team_color a = BLUE)
      then save (bs + ScoreAction.points a) rs bg rg cr st
      else save bs (rs + ScoreAction.points a) bg rg cr st
  | AddGamJeom a =>
      if decide (GamJeomAction.penalized_team a = BLUE)
      then save bs (rs + 1) (bg + 1) rg cr st
      else save (bs + 1) rs bg (rg + 1) cr st
  | ChangeState c => save bs rs bg rg cr (MatchStateChange.new_state c)
  | NextRound c => save bs rs bg rg (RoundChange.new_round c) st
  | Reset _ => save 0 0 0 0 1 NOT_STARTED
  end.

(** The tag, team and points an operation passes to [_record_event]. *)
Definition event_tag (op : Operation) : string :=
  match op with
  | Create => "MATCH_CREATED"
  | AddScore _ => "SCORE"
  | AddGamJeom _ => "GAM_JEOM"
  | ChangeState _ => "STATE_CHANGE"
  | NextRound _ => "ROUND_CHANGE"
  | Reset _ => "RESET"
  end.

Definition event_team (op : Operation) : option TeamColor :=
  match op with
  | AddScore a => Some (ScoreAction.team_color a)
  | AddGamJeom a => Some (GamJeomAction.penalized_team a)
  | _ => None
  end.

Definition event_points (op : Operation) : Z :=
  match op with
  | AddScore a => ScoreAction.points a
  | AddGamJeom _ => 1
  | _ => 0
  end.

(** A request with the two fields the service never reads blanked. *)
Definition payload (op : Operation) : Operation :=
  match op with
  | Create => Create
  | AddScore a =>
      AddScore (ScoreAction.mk (ScoreAction.team_color a)
                  (ScoreAction.points a) 0)
  | AddGamJeom a =>
      AddGamJeom (GamJeomAction.mk (GamJeomAction.penalized_team a) 0 None)
  | ChangeState c =>
      ChangeState (MatchStateChange.mk 0 (MatchStateChange.new_state c) None)
  | NextRound c => NextRound (RoundChange.mk 0 (RoundChange.new_round c))
  | Reset _ => Reset (MatchReset.mk 0 None)
  end.

(** Replaying a log from the counters [c]: every event must start where
    the one before it ended; the result is where the last one ends. *)
Fixpoint chained (c : Z * Z * Z * Z) (evs : list MatchEvent.t)
    : option (Z * Z * Z * Z) :=
  match evs with
  | [] => Some c
  | e :: evs' =>
      if decide (before_of e = c) then chained (after_of e) evs' else None
  end.

(** The number of penalties a run of calls gives to a team. *)
Fixpoint penalties_for (t : TeamColor) (cs : list Call) : Z :=
  match cs with
  | [] => 0
  | GamJeom a :: cs' =>
      (if decide (GamJeomAction.penalized_team a = t) then 1 else 0)
      + penalties_for t cs'
  | Score _ :: cs' => penalties_for t cs'
  end.

(** A request the schema accepts, for an operation on the selected
    match. *)
Definition on_selected (op : Operation) : Prop :=
  is_create op = false /\ Operation_valid op.

Definition is_gam_jeom (op : Operation) : bool :=
  match op with AddGamJeom _ => true | _ => false end.

Definition as_operation (c : Call) : Operation :=
  match c with Score a => AddScore a | GamJeom a => AddGamJeom a end.

(** A service that created a second match after the first. *)
Definition two_match_world : World :=
  after create_new_match first_match_world.

(** What [_update_display] puts on the labels for a snapshot. *)
Definition shown (s : CurrentMatchState.t) (u : ScoringUI) : ScoringUI :=
  mkScoringUI
    (set_text (pretty (CurrentMatchState.blue_score s)) (blue_score_label u))
    (set_text (pretty (CurrentMatchState.red_score s)) (red_score_label u))
    (set_text (pretty (CurrentMatchState.blue_gam_jeom s))
       (blue_gam_jeom_label u))
    (set_text (pretty (CurrentMatchState.red_gam_jeom s))
       (red_gam_jeom_label u))
    (set_text ("ROUND " +:+ pretty (CurrentMatchState.current_round s))
       (round_label u)).

(** The page has been laid out: the five labels exist. *)
Definition laid_out (u : ScoringUI) : Prop :=
  is_Some (blue_score_label u) /\ is_Some (red_score_label u) /\
  is_Some (blue_gam_jeom_label u) /\ is_Some (red_gam_jeom_label u) /\
  is_Some (round_label u).

(** The five labels show the values of the record [m]. *)
Definition displays (u : ScoringUI) (m : Match.t) : Prop :=
  blue_score_label u = Some (pretty (Match.blue_score m)) /\
  red_score_label u = Some (pretty (Match.red_score m)) /\
  blue_gam_jeom_label u = Some (pretty (Match.blue_gam_jeom m)) /\
  red_gam_jeom_label u = Some (pretty (Match.red_gam_jeom m)) /\
  round_label u = Some ("ROUND " +:+ pretty (Match.current_round m)).

(** The request a button sends when the match [k] is selected and its
    record is [m]. *)
Definition button_operation (b : Button) (k : Z) (m : Match.t) : Operation :=
  match b with
  | BluePlus1 => AddScore (ScoreAction.mk BLUE 1 k)
  | BluePlus3 => AddScore (ScoreAction.mk BLUE 3 k)
  | BlueGamJeom =>
      AddGamJeom (GamJeomAction.mk BLUE k (Some "Blue team Gam-Jeom penalty"))
  | RedPlus1 => AddScore (ScoreAction.mk RED 1 k)
  | RedPlus3 => AddScore (ScoreAction.mk RED 3 k)
  | RedGamJeom =>
      AddGamJeom (GamJeomAction.mk RED k (Some "Red team Gam-Jeom penalty"))
  | StartButton =>
      ChangeState (MatchStateChange.mk k RUNNING (Some "Match started"))
  | PauseButton =>
      ChangeState (MatchStateChange.mk k PAUSED (Some "Match paused"))
  | ResetButton => Reset (MatchReset.mk k (Some "Manual match reset"))
  | NextRoundButton =>
      NextRound (RoundChange.mk k (Match.current_round m + 1))
  end.

(** No notification of the error kind among [ns]. *)
Definition no_error (ns : list Notification.t) : Prop :=
  Forall (fun n => Notification.type n <> "negative") ns.

(** The process once the page has been opened for the first time. *)
Definition opened_app : App := snd (scoring_page init_app).

(** A service pointed at an id the store does not know. *)
Definition dangling_world : World :=
  after (set_current_match_id 42) init_world.

Ltac exec :=
  cbv beta iota zeta delta
    [add_score add_gam_jeom change_match_state next_round reset_match
     create_new_match set_current_match_id get_current_match_id
     self_current_match_id assign_current_match_id Match_init
     get_current_state getMatch
     saveMatch appendEvent _record_event utcnow bind ret raise lift
     result after fst snd committed view
     _current_match_id matches matches_seq match_events match_events_seq clock
     Match.set_id Match.set_blue_score Match.set_red_score
     Match.set_blue_gam_jeom Match.set_red_gam_jeom Match.set_current_round
     Match.set_match_state Match.set_updated_at
     Match.id Match.blue_score Match.red_score Match.blue_gam_jeom
     Match.red_gam_jeom Match.current_round Match.match_state
     Match.created_at Match.updated_at
     MatchEvent.set_id].

Ltac ui_exec :=
  cbv beta iota zeta delta
    [on_click _add_blue_score _add_red_score _add_blue_gam_jeom
     _add_red_gam_jeom _start_match _pause_match _reset_match _next_round
     try_except ui_bind ui_ret service construct report
     logger_error ui_notify get_current_match_id self_current_match_id
     match_service scoring_ui notifications logged fst snd].

Ltac built_requests :=
  repeat match goal with
    | |- context [ScoreAction_init ?t ?p ?i] =>
        change (ScoreAction_init t p i) with (Ok (ScoreAction.mk t p i))
    | |- context [GamJeomAction_init ?t ?i ?n] =>
        change (GamJeomAction_init t i n) with (Ok (GamJeomAction.mk t i n))
    | |- context [MatchStateChange_init ?i ?t ?n] =>
        change (MatchStateChange_init i t n)
          with (Ok (MatchStateChange.mk i t n))
    | |- context [MatchReset_init ?i ?n] =>
        change (MatchReset_init i n) with (Ok (MatchReset.mk i n))
    end.

Ltac open_selected H w m :=
  destruct H as [?Hptr ?Hrow];
  destruct w as [?p ?ms ?sq ?evs ?esq ?c];
  destruct m as [?i ?bs ?rs ?bg ?rg ?cr ?st ?ca ?ua];
  cbn [_current_match_id matches] in *; subst.

(** * Properties *)

(** ** The selection *)

Lemma selection_cases w :
  _current_match_id w = None \/
  (exists k, _current_match_id w = Some k /\ matches w !! k = None) \/
  (exists k m, selected w k m).
Proof.
  unfold selected. destruct (_current_match_id w) as [k |]; [| now left].
  right. destruct (matches w !! k) as [m |] eqn:Hl; [right | left]; eauto.
Qed.

Lemma get_current_state_selected w k m :
  selected w k m -> get_current_state w = (view m, w).
Proof.
  intros [Hp Hl].
  unfold get_current_state, bind, self_current_match_id, getMatch, lift.
  rewrite Hp, Hl. now destruct m.
Qed.

Lemma selected_committed w k m' ev : selected (committed w k m' ev) k m'.
Proof. split; [reflexivity | apply lookup_insert_eq]. Qed.

(** ** What each operation does to a selected match *)

Lemma add_score_run w k m a :
  selected w k m ->
  let t := ScoreAction.team_color a in
  let p := ScoreAction.points a in
  let m' :=
    Match.mk (Some k)
      (if decide (t = BLUE) then Match.blue_score m + p else Match.blue_score m)
      (if decide (t = BLUE) then Match.red_score m else Match.red_score m + p)
      (Match.blue_gam_jeom m) (Match.red_gam_jeom m)
      (Match.current_round m) (Match.match_state m)
      (Match.created_at m) (clock w) in
  exists note,
    add_score a w =
    (view m',
     committed w k m'
       (MatchEvent.mk (Some (match_events_seq w)) k "SCORE" (Some t) p
          (Match.current_round m)
          (Match.blue_score m) (Match.red_score m)
          (Match.blue_gam_jeom m) (Match.red_gam_jeom m)
          (Match.blue_score m') (Match.red_score m')
          (Match.blue_gam_jeom m') (Match.red_gam_jeom m')
          (Some note) (S (clock w)))).
Proof.
  intros Hsel. open_selected Hsel w m. destruct a as [t p mid].
  cbn [ScoreAction.team_color ScoreAction.points].
  exec. rewrite Hrow. cbn [fmap option_fmap option_map]. exec.
  cbn [ScoreAction.team_color ScoreAction.points].
  destruct (decide (t = BLUE)); exec;
    rewrite lookup_insert_eq; cbn [fmap option_fmap option_map]; exec;
    eexists; reflexivity.
Qed.

Lemma add_gam_jeom_run w k m a :
  selected w k m ->
  let t := GamJeomAction.penalized_team a in
  let m' :=
    Match.mk (Some k)
      (if decide (t = BLUE) then Match.blue_score m else Match.blue_score m + 1)
      (if decide (t = BLUE) then Match.red_score m + 1 else Match.red_score m)
      (if decide (t = BLUE) then Match.blue_gam_jeom m + 1
       else Match.blue_gam_jeom m)
      (if decide (t = BLUE) then Match.red_gam_jeom m
       else Match.red_gam_jeom m + 1)
      (Match.current_round m) (Match.match_state m)
      (Match.created_at m) (clock w) in
  exists note,
    add_gam_jeom a w =
    (view m',
     committed w k m'
       (MatchEvent.mk (Some (match_events_seq w)) k "GAM_JEOM" (Some t) 1
          (Match.current_round m)
          (Match.blue_score m) (Match.red_score m)
          (Match.blue_gam_jeom m) (Match.red_gam_jeom m)
          (Match.blue_score m') (Match.red_score m')
          (Match.blue_gam_jeom m') (Match.red_gam_jeom m')
          (Some note) (S (clock w)))).
Proof.
  intros Hsel. open_selected Hsel w m. destruct a as [t mid n].
  cbn [GamJeomAction.penalized_team].
  exec. rewrite Hrow. cbn [fmap option_fmap option_map]. exec.
  cbn [GamJeomAction.penalized_team].
  destruct (decide (t = BLUE)); exec;
    rewrite lookup_insert_eq; cbn [fmap option_fmap option_map]; exec;
    eexists; reflexivity.
Qed.

Lemma change_match_state_run w k m c :
  selected w k m ->
  let m' :=
    Match.mk (Some k)
      (Match.blue_score m) (Match.red_score m)
      (Match.blue_gam_jeom m) (Match.red_gam_jeom m)
      (Match.current_round m) (MatchStateChange.new_state c)
      (Match.created_at m) (clock w) in
  exists note,
    change_match_state c w =
    (view m',
     committed w k m'
       (MatchEvent.mk (Some (match_events_seq w)) k "STATE_CHANGE" None 0
          (Match.current_round m)
          (Match.blue_score m) (Match.red_score m)
          (Match.blue_gam_jeom m) (Match.red_gam_jeom m)
          (Match.blue_score m) (Match.red_score m)
          (Match.blue_gam_jeom m) (Match.red_gam_jeom m)
          (Some note) (S (clock w)))).
Proof.
  intros Hsel. open_selected Hsel w m. destruct c as [mid ns n].
  cbn [MatchStateChange.new_state].
  exec. rewrite Hrow. cbn [fmap option_fmap option_map]. exec.
  rewrite lookup_insert_eq. cbn [fmap option_fmap option_map]. exec.
  cbn [MatchStateChange.new_state]. eexists; reflexivity.
Qed.

Lemma next_round_run w k m c :
  selected w k m ->
  let m' :=
    Match.mk (Some k)
      (Match.blue_score m) (Match.red_score m)
      (Match.blue_gam_jeom m) (Match.red_gam_jeom m)
      (RoundChange.new_round c) (Match.match_state m)
      (Match.created_at m) (clock w) in
  exists note,
    next_round c w =
    (view m',
     committed w k m'
       (MatchEvent.mk (Some (match_events_seq w)) k "ROUND_CHANGE" None 0
          (RoundChange.new_round c)
          (Match.blue_score m) (Match.red_score m)
          (Match.blue_gam_jeom m) (Match.red_gam_jeom m)
          (Match.blue_score m) (Match.red_score m)
          (Match.blue_gam_jeom m) (Match.red_gam_jeom m)
          (Some note) (S (clock w)))).
Proof.
  intros Hsel. open_selected Hsel w m. destruct c as [mid nr].
  cbn [RoundChange.new_round].
  exec. rewrite Hrow. cbn [fmap option_fmap option_map]. exec.
  rewrite lookup_insert_eq. cbn [fmap option_fmap option_map]. exec.
  cbn [RoundChange.new_round]. eexists; reflexivity.
Qed.

Lemma reset_match_run w k m r :
  selected w k m ->
  let m' :=
    Match.mk (Some k) 0 0 0 0 1 NOT_STARTED (Match.created_at m) (clock w) in
  exists note,
    reset_match r w =
    (Ok (CurrentMatchState.mk 0 0 0 0 1 NOT_STARTED),
     committed w k m'
       (MatchEvent.mk (Some (match_events_seq w)) k "RESET" None 0 1
          (Match.blue_score m) (Match.red_score m)
          (Match.blue_gam_jeom m) (Match.red_gam_jeom m)
          0 0 0 0
          (Some note) (S (clock w)))).
Proof.
  intros Hsel. open_selected Hsel w m.
  exec. rewrite Hrow. cbn [fmap option_fmap option_map]. exec.
  rewrite lookup_insert_eq. cbn [fmap option_fmap option_map]. exec.
  eexists; reflexivity.
Qed.

Lemma create_new_match_run w :
  let k := matches_seq w in
  create_new_match w =
  (Ok k,
   mkWorld (Some k)
     (<[k := Match.mk (Some k) 0 0 0 0 1 NOT_STARTED
               (clock w) (S (clock w))]> (matches w))
     (k + 1)
     (match_events w ++
      [MatchEvent.mk (Some (match_events_seq w)) k "MATCH_CREATED" None 0 1
         0 0 0 0 0 0 0 0 (Some "New match created") (S (S (clock w)))])%list
     (match_events_seq w + 1)
     (S (S (S (clock w))))).
Proof. destruct w. reflexivity. Qed.

Lemma first_match_selected : selected first_match_world 1 first_match.
Proof. split; reflexivity. Qed.

(** ** Penalties *)

(** C1. On a selected existing match, [add_gam_jeom] adds exactly 1 to the
    penalised team's gam-jeom counter and exactly 1 to the opposing
    team's score; the penalised team's own score and the opponent's
    gam-jeom counter keep their values, no other record changes, and
    exactly one event is appended: a GAM_JEOM event for this match that
    names the penalised team and has [points_awarded = 1]. *)
Theorem add_gam_jeom_penalty w k m a :
  selected w k m ->
  let t := GamJeomAction.penalized_team a in
  let w' := after (add_gam_jeom a) w in
  exists m' ev,
    matches w' = <[k := m']> (matches w) /\
    gam_jeom_of t m' = gam_jeom_of t m + 1 /\
    score_of (opponent t) m' = score_of (opponent t) m + 1 /\
    score_of t m' = score_of t m /\
    gam_jeom_of (opponent t) m' = gam_jeom_of (opponent t) m /\
    match_events w' = (match_events w ++ [ev])%list /\
    MatchEvent.event_type ev = "GAM_JEOM" /\
    MatchEvent.match_id ev = k /\
    MatchEvent.team_color ev = Some t /\
    MatchEvent.points_awarded ev = 1.
Proof.
  intros Hsel. cbv zeta.
  destruct (add_gam_jeom_run w k m a Hsel) as [note Hrun].
  unfold after. rewrite Hrun. cbn [snd committed matches match_events].
  destruct (GamJeomAction.penalized_team a); simpl;
    eexists _, _; repeat split; reflexivity.
Qed.

Lemma add_gam_jeom_penalty_witness :
  selected first_match_world 1 first_match /\
  exists m',
    matches (after (add_gam_jeom (GamJeomAction.mk BLUE 1 None))
               first_match_world) !! 1 = Some m' /\
    Match.blue_gam_jeom m' = 1 /\ Match.red_score m' = 1 /\
    Match.blue_score m' = 0 /\ Match.red_gam_jeom m' = 0.
Proof.
  split; [exact first_match_selected |].
  destruct (add_gam_jeom_penalty first_match_world 1 first_match
              (GamJeomAction.mk BLUE 1 None) first_match_selected)
    as (m' & ev & Hm & Hgj & Hopp & Hown & Hogj & _).
  exists m'. rewrite Hm, lookup_insert_eq.
  repeat split; assumption.
Defined.

(** ** Scoring *)

(** C9. On a selected existing match, [add_score] adds the points to the
    chosen team's score and rewrites [updated_at]; the other team's score,
    both gam-jeom counters, the round, the match state and [created_at]
    keep their values, and no other record of the store changes. *)
Theorem add_score_frame w k m a :
  selected w k m ->
  let t := ScoreAction.team_color a in
  let w' := after (add_score a) w in
  exists m',
    matches w' = <[k := m']> (matches w) /\
    score_of t m' = score_of t m + ScoreAction.points a /\
    score_of (opponent t) m' = score_of (opponent t) m /\
    Match.blue_gam_jeom m' = Match.blue_gam_jeom m /\
    Match.red_gam_jeom m' = Match.red_gam_jeom m /\
    Match.current_round m' = Match.current_round m /\
    Match.match_state m' = Match.match_state m /\
    Match.created_at m' = Match.created_at m.
Proof.
  intros Hsel. cbv zeta.
  destruct (add_score_run w k m a Hsel) as [note Hrun].
  unfold after. rewrite Hrun. cbn [snd committed matches].
  destruct (ScoreAction.team_color a); simpl;
    eexists; repeat split; reflexivity.
Qed.

Lemma add_score_frame_witness :
  selected first_match_world 1 first_match /\
  exists m',
    matches (after (add_score (ScoreAction.mk RED 3 1))
               first_match_world) !! 1 = Some m' /\
    Match.red_score m' = 3 /\ Match.blue_score m' = 0 /\
    Match.current_round m' = 1 /\ Match.match_state m' = NOT_STARTED.
Proof.
  split; [exact first_match_selected |].
  destruct (add_score_frame first_match_world 1 first_match
              (ScoreAction.mk RED 3 1) first_match_selected)
    as (m' & Hm & Hown & Hopp & _ & _ & Hround & Hstate & _).
  exists m'. rewrite Hm, lookup_insert_eq.
  repeat split; assumption.
Defined.

(** ** Reset *)

(** C4. On a selected existing match, [reset_match] leaves the record
    with all four counters at 0, round 1 and state NOT_STARTED and
    returns that snapshot; a second [reset_match] right after it returns
    the same snapshot and leaves the record with the same values. *)
Theorem reset_match_idempotent w k m r1 r2 :
  selected w k m ->
  let zero := CurrentMatchState.mk 0 0 0 0 1 NOT_STARTED in
  let w1 := after (reset_match r1) w in
  let w2 := after (reset_match r2) w1 in
  result (reset_match r1) w = Ok zero /\
  result (reset_match r2) w1 = Ok zero /\
  exists m1 m2,
    matches w1 !! k = Some m1 /\ matches w2 !! k = Some m2 /\
    counters m1 = (0, 0, 0, 0) /\ Match.current_round m1 = 1 /\
    Match.match_state m1 = NOT_STARTED /\
    counters m2 = (0, 0, 0, 0) /\ Match.current_round m2 = 1 /\
    Match.match_state m2 = NOT_STARTED.
Proof.
  intros Hsel. cbv zeta.
  destruct (reset_match_run w k m r1 Hsel) as [n1 Hrun1].
  unfold after, result. rewrite Hrun1. cbn [fst snd].
  match goal with
  | |- context [reset_match r2 (committed w k ?m1 ?ev)] =>
      destruct (reset_match_run (committed w k m1 ev) k m1 r2
                  (selected_committed w k m1 ev)) as [n2 Hrun2];
      rewrite Hrun2
  end.
  cbn [fst snd]. split; [reflexivity |]. split; [reflexivity |].
  eexists _, _.
  split; [apply selected_committed |]. split; [apply selected_committed |].
  repeat split; reflexivity.
Qed.

Lemma reset_match_idempotent_witness :
  selected first_match_world 1 first_match /\
  result (reset_match (MatchReset.mk 1 None))
    (after (reset_match (MatchReset.mk 1 None)) first_match_world)
  = Ok (CurrentMatchState.mk 0 0 0 0 1 NOT_STARTED).
Proof.
  split; [exact first_match_selected |].
  exact (proj1 (proj2
    (reset_match_idempotent first_match_world 1 first_match
       (MatchReset.mk 1 None) (MatchReset.mk 1 None) first_match_selected))).
Defined.

(** ** Reading the state *)

Lemma view_valid m : Match_valid m -> exists s, view m = Ok s.
Proof.
  intros (Hbs & Hrs & Hbg & Hrg & Hcr).
  unfold view, CurrentMatchState_init, check_ge.
  repeat match goal with
         | |- context [?a <? ?b] =>
             destruct (Z.ltb_spec a b); [lia |]
         end.
  simpl. eexists; reflexivity.
Qed.

Lemma get_current_state_default w :
  no_valid_selection w ->
  get_current_state w = (Ok (CurrentMatchState.mk 0 0 0 0 1 NOT_STARTED), w).
Proof.
  unfold no_valid_selection, get_current_state, bind,
    self_current_match_id, getMatch.
  destruct (_current_match_id w) as [k |]; [| reflexivity].
  intros ->. reflexivity.
Qed.

Lemma get_current_state_in_bounds w :
  (forall k m, selected w k m -> Match_valid m) ->
  exists s, get_current_state w = (Ok s, w).
Proof.
  intros Hvalid.
  destruct (selection_cases w) as [Hp | [(k & Hp & Hl) | (k & m & Hsel)]].
  - eexists. apply get_current_state_default.
    unfold no_valid_selection. now rewrite Hp.
  - eexists. apply get_current_state_default.
    unfold no_valid_selection. now rewrite Hp.
  - destruct (view_valid m (Hvalid k m Hsel)) as [s Hs].
    exists s. rewrite (get_current_state_selected w k m Hsel).
    now rewrite Hs.
Qed.

Lemma get_current_state_reads_only w : after get_current_state w = w.
Proof.
  unfold after.
  destruct (selection_cases w) as [Hp | [(k & Hp & Hl) | (k & m & Hsel)]].
  - rewrite get_current_state_default; [reflexivity |].
    unfold no_valid_selection. now rewrite Hp.
  - rewrite get_current_state_default; [reflexivity |].
    unfold no_valid_selection. now rewrite Hp.
  - now rewrite (get_current_state_selected w k m Hsel).
Qed.

(** C5. [get_current_state] does not raise.  With no id selected, or with
    a selected id that has no record, it returns the default snapshot
    (0, 0, 0, 0, round 1, NOT_STARTED); and whenever the selected record,
    if there is one, respects the bounds declared on its columns, it
    returns a snapshot.  In both cases nothing is written. *)
Theorem get_current_state_never_raises w :
  (no_valid_selection w ->
   get_current_state w = (Ok (CurrentMatchState.mk 0 0 0 0 1 NOT_STARTED), w))
  /\
  ((forall k m, selected w k m -> Match_valid m) ->
   exists s, get_current_state w = (Ok s, w)).
Proof.
  split; [apply get_current_state_default | apply get_current_state_in_bounds].
Qed.

Lemma get_current_state_never_raises_witness :
  no_valid_selection init_world /\
  get_current_state init_world
  = (Ok (CurrentMatchState.mk 0 0 0 0 1 NOT_STARTED), init_world).
Proof.
  assert (H : no_valid_selection init_world) by exact I.
  split; [exact H |].
  exact (proj1 (get_current_state_never_raises init_world) H).
Defined.

(** ** The six operations, uniformly *)

Lemma snapshot_bind (c : M CurrentMatchState.t) w :
  (let* s := c in ret (Snapshot s)) w = (reply (fst (c w)), snd (c w)).
Proof. unfold bind, ret. now destruct (c w) as [[s | e] w']. Qed.

Lemma perform_unselected op w :
  is_create op = false -> _current_match_id w = None ->
  perform op w = (Raise (ValueError "No active match"), w).
Proof.
  intros Hop Hp. destruct op; try discriminate; cbn [perform];
    rewrite snapshot_bind;
    unfold add_score, add_gam_jeom, change_match_state, next_round,
      reset_match, bind, self_current_match_id;
    now rewrite Hp.
Qed.

Lemma perform_missing op w k :
  is_create op = false ->
  _current_match_id w = Some k -> matches w !! k = None ->
  perform op w = (Raise (ValueError "Match not found"), w).
Proof.
  intros Hop Hp Hl. destruct op; try discriminate; cbn [perform];
    rewrite snapshot_bind;
    unfold add_score, add_gam_jeom, change_match_state, next_round,
      reset_match, bind, self_current_match_id, getMatch;
    now rewrite Hp, Hl.
Qed.

Lemma perform_selected op w k m :
  is_create op = false -> selected w k m ->
  exists m' ev,
    perform op w = (reply (view m'), committed w k m' ev) /\
    MatchEvent.match_id ev = k /\
    before_of ev = counters m /\
    after_of ev = counters m' /\
    MatchEvent.round_number ev = Match.current_round m' /\
    MatchEvent.round_number ev = recorded_round op m /\
    (Operation_valid op -> Match_valid m -> Match_valid m').
Proof.
  intros Hop Hsel. destruct op as [| a | a | c | c | r]; try discriminate;
    cbn [perform]; rewrite snapshot_bind.
  - destruct (add_score_run w k m a Hsel) as [note ->]. cbn [fst snd].
    eexists _, _. split; [reflexivity |].
    unfold before_of, after_of, counters, Match_valid, Operation_valid,
      ScoreAction_valid.
    destruct (decide (ScoreAction.team_color a = BLUE)); simpl;
      repeat split; try reflexivity; intros; lia.
  - destruct (add_gam_jeom_run w k m a Hsel) as [note ->]. cbn [fst snd].
    eexists _, _. split; [reflexivity |].
    unfold before_of, after_of, counters, Match_valid.
    destruct (decide (GamJeomAction.penalized_team a = BLUE)); simpl;
      repeat split; try reflexivity; intros; lia.
  - destruct (change_match_state_run w k m c Hsel) as [note ->].
    cbn [fst snd]. eexists _, _. split; [reflexivity |].
    unfold before_of, after_of, counters, Match_valid. simpl.
    repeat split; try reflexivity; intros; lia.
  - destruct (next_round_run w k m c Hsel) as [note ->].
    cbn [fst snd]. eexists _, _. split; [reflexivity |].
    unfold before_of, after_of, counters, Match_valid, Operation_valid,
      RoundChange_valid. simpl.
    repeat split; try reflexivity; intros; lia.
  - destruct (reset_match_run w k m r Hsel) as [note ->].
    cbn [fst snd].
    exists (Match.mk (Some k) 0 0 0 0 1 NOT_STARTED
              (Match.created_at m) (clock w)).
    eexists. split; [reflexivity |].
    unfold before_of, after_of, counters, Match_valid. simpl.
    repeat split; try reflexivity; intros; lia.
Qed.

Lemma perform_create w :
  let k := matches_seq w in
  exists m' ev,
    perform Create w =
    (Ok (MatchId k),
     mkWorld (Some k) (<[k := m']> (matches w)) (k + 1)
       (match_events w ++ [ev])%list (match_events_seq w + 1)
       (S (S (S (clock w))))) /\
    MatchEvent.match_id ev = k /\
    before_of ev = (0, 0, 0, 0) /\
    after_of ev = counters m' /\
    MatchEvent.round_number ev = Match.current_round m' /\
    counters m' = (0, 0, 0, 0) /\ Match.current_round m' = 1 /\
    Match.match_state m' = NOT_STARTED.
Proof.
  cbv zeta. cbn [perform]. unfold bind at 1.
  rewrite create_new_match_run. eexists _, _.
  split; [reflexivity |]. repeat split; reflexivity.
Qed.

Lemma Match_init_run w :
  Match_init w =
  (Ok (Match.mk None 0 0 0 0 1 NOT_STARTED (clock w) (S (clock w))),
   mkWorld (_current_match_id w) (matches w) (matches_seq w)
     (match_events w) (match_events_seq w) (S (S (clock w)))).
Proof. destruct w. reflexivity. Qed.

(** ** The audit trail *)

(** C2. Each of the six mutating operations appends exactly one event,
    and that event belongs to the match it mutated.  Its four "before"
    fields are the counters of that match immediately before the mutation
    (for [create], of the new [Match()] before it is stored) and its four
    "after" fields are the counters of the stored match immediately
    after. *)
Theorem one_event_per_mutation op w k m :
  acts_on op w k m ->
  let w' := after (perform op) w in
  exists m' ev,
    matches w' !! k = Some m' /\
    match_events w' = (match_events w ++ [ev])%list /\
    MatchEvent.match_id ev = k /\
    before_of ev = counters m /\
    after_of ev = counters m'.
Proof.
  intros Hact. cbv zeta. unfold after.
  destruct (is_create op) eqn:Hop.
  - destruct op; try discriminate. destruct Hact as [-> Hm].
    unfold result in Hm. rewrite Match_init_run in Hm.
    injection Hm as <-.
    destruct (perform_create w) as (m' & ev & -> & Hid & Hb & Ha & _).
    exists m', ev. cbn [snd matches match_events].
    rewrite lookup_insert_eq. repeat split; assumption.
  - assert (Hsel : selected w k m) by (destruct op; try discriminate; exact Hact).
    destruct (perform_selected op w k m Hop Hsel)
      as (m' & ev & -> & Hid & Hb & Ha & _).
    exists m', ev. cbn [snd committed matches match_events].
    rewrite lookup_insert_eq. repeat split; assumption.
Qed.

Lemma one_event_per_mutation_witness :
  acts_on (Reset (MatchReset.mk 1 None)) first_match_world 1 first_match /\
  exists ev,
    match_events (after (perform (Reset (MatchReset.mk 1 None)))
                    first_match_world)
    = (match_events first_match_world ++ [ev])%list /\
    before_of ev = (0, 0, 0, 0).
Proof.
  split; [exact first_match_selected |].
  destruct (one_event_per_mutation (Reset (MatchReset.mk 1 None))
              first_match_world 1 first_match first_match_selected)
    as (m' & ev & _ & Hev & _ & Hb & _).
  exists ev. split; [exact Hev | exact Hb].
Defined.

(** C8, as stated, fails for [reset_match] and [next_round]: the event
    does not carry the round that was in effect when the mutation
    occurred.  A match in round 3 that is reset gets a RESET event with
    [round_number] 1, and a match in round 3 that is moved to round 7
    gets a ROUND_CHANGE event with [round_number] 7. *)
Lemma round_in_effect_is_not_recorded :
  let w := after (perform_all [Create; NextRound (RoundChange.mk 1 3)])
             init_world in
  let recorded op :=
    (fun ev => (MatchEvent.event_type ev, MatchEvent.round_number ev))
      <$> last (match_events (after (perform op) w)) in
  Match.current_round <$> matches w !! 1 = Some 3 /\
  recorded (Reset (MatchReset.mk 1 None)) = Some ("RESET", 1) /\
  recorded (NextRound (RoundChange.mk 1 7)) = Some ("ROUND_CHANGE", 7).
Proof. cbv zeta. repeat split; reflexivity. Qed.

(** C8, amended. For each of the six mutating operations, the
    [round_number] of the event it appends is the [current_round] the
    match has in the store when the event is written, that is, once the
    mutation has been saved: the new round for [next_round], 1 for
    [create] and [reset_match], and the round the match was already in
    for the operations that do not touch the round. *)
Theorem event_round_is_current_round op w k m :
  acts_on op w k m ->
  let w' := after (perform op) w in
  exists m' ev,
    matches w' !! k = Some m' /\
    match_events w' = (match_events w ++ [ev])%list /\
    MatchEvent.round_number ev = Match.current_round m' /\
    Match.current_round m' = recorded_round op m.
Proof.
  intros Hact. cbv zeta. unfold after.
  destruct (is_create op) eqn:Hop.
  - destruct op; try discriminate. destruct Hact as [-> _].
    destruct (perform_create w)
      as (m' & ev & -> & _ & _ & _ & Hr & _ & Hone & _).
    exists m', ev. cbn [snd matches match_events].
    rewrite lookup_insert_eq. repeat split; assumption.
  - assert (Hsel : selected w k m) by (destruct op; try discriminate; exact Hact).
    destruct (perform_selected op w k m Hop Hsel)
      as (m' & ev & -> & _ & _ & _ & Hr & Hrec & _).
    exists m', ev. cbn [snd committed matches match_events].
    rewrite lookup_insert_eq. repeat split; congruence.
Qed.

Lemma event_round_is_current_round_witness :
  acts_on (NextRound (RoundChange.mk 1 3)) first_match_world 1 first_match /\
  exists m' ev,
    matches (after (perform (NextRound (RoundChange.mk 1 3)))
               first_match_world) !! 1 = Some m' /\
    match_events (after (perform (NextRound (RoundChange.mk 1 3)))
                    first_match_world)
    = (match_events first_match_world ++ [ev])%list /\
    MatchEvent.round_number ev = Match.current_round m' /\
    Match.current_round m' = 3.
Proof.
  split; [exact first_match_selected |].
  exact (event_round_is_current_round (NextRound (RoundChange.mk 1 3))
           first_match_world 1 first_match first_match_selected).
Defined.

(** ** Totals of a run of calls *)

Lemma call_run c w k m :
  selected w k m -> Match_valid m -> Call_valid c ->
  exists m1 ev s,
    call c w = (Ok s, committed w k m1 ev) /\
    Match_valid m1 /\
    Match.blue_score m1 = Match.blue_score m + points_for BLUE c /\
    Match.red_score m1 = Match.red_score m + points_for RED c.
Proof.
  intros Hsel Hm Hc. destruct c as [a | a]; cbn [call points_for].
  - destruct (add_score_run w k m a Hsel) as [note Hrun].
    cbv zeta in Hrun. rewrite Hrun. clear Hrun.
    match goal with |- context [view ?m1] => set (m1' := m1) end.
    assert (Hm1 : Match_valid m1').
    { unfold Match_valid, Call_valid, ScoreAction_valid in *. subst m1'.
      destruct (decide (ScoreAction.team_color a = BLUE)); simpl; lia. }
    destruct (view_valid m1' Hm1) as [s ->].
    eexists _, _, _. split; [reflexivity |]. split; [exact Hm1 |].
    subst m1'. destruct (ScoreAction.team_color a); simpl; lia.
  - destruct (add_gam_jeom_run w k m a Hsel) as [note Hrun].
    cbv zeta in Hrun. rewrite Hrun. clear Hrun.
    match goal with |- context [view ?m1] => set (m1' := m1) end.
    assert (Hm1 : Match_valid m1').
    { unfold Match_valid in *. subst m1'.
      destruct (decide (GamJeomAction.penalized_team a = BLUE)); simpl; lia. }
    destruct (view_valid m1' Hm1) as [s ->].
    eexists _, _, _. split; [reflexivity |]. split; [exact Hm1 |].
    subst m1'. destruct (GamJeomAction.penalized_team a); simpl; lia.
Qed.

Lemma calls_run cs :
  forall w k m,
    selected w k m -> Match_valid m -> Forall Call_valid cs ->
    exists m',
      result (calls cs) w = Ok tt /\
      selected (after (calls cs) w) k m' /\
      Match_valid m' /\
      Match.blue_score m' = Match.blue_score m + total_for BLUE cs /\
      Match.red_score m' = Match.red_score m + total_for RED cs.
Proof.
  induction cs as [| c cs IH]; intros w k m Hsel Hm Hcs.
  - exists m. split; [reflexivity |]. split; [exact Hsel |].
    split; [exact Hm |]. cbn [total_for]. split; lia.
  - apply Forall_cons in Hcs as [Hc Hcs].
    destruct (call_run c w k m Hsel Hm Hc)
      as (m1 & ev & s & Hrun & Hm1 & Hb & Hr).
    destruct (IH (committed w k m1 ev) k m1
                (selected_committed w k m1 ev) Hm1 Hcs)
      as (m' & Hres & Hsel' & Hm' & Hb' & Hr').
    assert (Hstep : calls (c :: cs) w = calls cs (committed w k m1 ev)).
    { cbn [calls]. unfold bind. now rewrite Hrun. }
    exists m'. unfold result, after in *. rewrite Hstep.
    split; [exact Hres |]. split; [exact Hsel' |].
    split; [exact Hm' |]. cbn [total_for]. split; lia.
Qed.

(** C3. After [create_new_match], every run of [add_score] and
    [add_gam_jeom] calls whose requests satisfy their schema goes through
    without an exception, and leaves the match with [blue_score] equal to
    the sum of the points scored for BLUE plus the number of penalties
    against RED, and [red_score] equal to the sum of the points scored for
    RED plus the number of penalties against BLUE. *)
Theorem scores_add_up w cs :
  Forall Call_valid cs ->
  let k := matches_seq w in
  let w1 := after create_new_match w in
  result create_new_match w = Ok k /\
  result (calls cs) w1 = Ok tt /\
  exists m,
    matches (after (calls cs) w1) !! k = Some m /\
    Match.blue_score m = total_for BLUE cs /\
    Match.red_score m = total_for RED cs.
Proof.
  intros Hcs. cbv zeta.
  pose proof (create_new_match_run w) as Hnew. cbv zeta in Hnew.
  unfold result at 1. unfold after at 1 3. rewrite Hnew. cbn [fst snd].
  split; [reflexivity |].
  set (m0 := Match.mk (Some (matches_seq w)) 0 0 0 0 1 NOT_STARTED
               (clock w) (S (clock w))).
  match goal with |- context [result (calls cs) ?x] => set (w1 := x) end.
  assert (Hsel : selected w1 (matches_seq w) m0)
    by (split; [reflexivity | apply lookup_insert_eq]).
  assert (Hm0 : Match_valid m0) by (unfold Match_valid; simpl; lia).
  destruct (calls_run cs w1 _ m0 Hsel Hm0 Hcs)
    as (m & Hres & Hsel' & _ & Hb & Hr).
  split; [exact Hres |]. exists m.
  split; [apply Hsel' |]. simpl in Hb, Hr. split; lia.
Qed.

Lemma scores_add_up_witness :
  Forall Call_valid
    [Score (ScoreAction.mk BLUE 3 1); Score (ScoreAction.mk RED 1 1);
     GamJeom (GamJeomAction.mk RED 1 None)] /\
  exists m,
    matches (after (calls
                      [Score (ScoreAction.mk BLUE 3 1);
                       Score (ScoreAction.mk RED 1 1);
                       GamJeom (GamJeomAction.mk RED 1 None)])
               (after create_new_match init_world)) !! 1 = Some m /\
    Match.blue_score m = 4 /\ Match.red_score m = 1.
Proof.
  assert (H : Forall Call_valid
    [Score (ScoreAction.mk BLUE 3 1); Score (ScoreAction.mk RED 1 1);
     GamJeom (GamJeomAction.mk RED 1 None)]).
  { repeat constructor; cbn; unfold ScoreAction_valid; cbn; lia. }
  split; [exact H |].
  exact (proj2 (proj2 (scores_add_up init_world _ H))).
Defined.

(** ** Errors *)

(** C7, as stated, fails for [create]: with no id selected it succeeds,
    stores a match and appends an event. *)
Lemma create_writes_without_selection :
  _current_match_id init_world = None /\
  result (perform Create) init_world = Ok (MatchId 1) /\
  matches (after (perform Create) init_world) !! 1 = Some first_match /\
  length (match_events (after (perform Create) init_world)) = 1%nat.
Proof. repeat split; reflexivity. Qed.

(** C7, amended. Each mutating operation other than [create], called
    while no match id is selected, raises [ValueError("No active match")]
    and leaves the whole world as it was: no record is modified, no event
    is appended. *)
Theorem no_selection_no_writes op w :
  is_create op = false ->
  _current_match_id w = None ->
  exists e,
    result (perform op) w = Raise e /\ NoActiveMatch e /\
    after (perform op) w = w /\
    matches (after (perform op) w) = matches w /\
    match_events (after (perform op) w) = match_events w.
Proof.
  intros Hop Hp. exists (ValueError "No active match").
  unfold result, after. rewrite (perform_unselected op w Hop Hp).
  cbn [fst snd]. repeat split. now left.
Qed.

Lemma no_selection_no_writes_witness :
  is_create (Reset (MatchReset.mk 999 None)) = false /\
  _current_match_id init_world = None /\
  exists e,
    result (perform (Reset (MatchReset.mk 999 None))) init_world = Raise e /\
    NoActiveMatch e /\
    after (perform (Reset (MatchReset.mk 999 None))) init_world = init_world /\
    matches (after (perform (Reset (MatchReset.mk 999 None))) init_world)
    = matches init_world /\
    match_events (after (perform (Reset (MatchReset.mk 999 None))) init_world)
    = match_events init_world.
Proof.
  split; [reflexivity |]. split; [reflexivity |].
  exact (no_selection_no_writes (Reset (MatchReset.mk 999 None)) init_world
           eq_refl eq_refl).
Defined.

(** C6, as stated, fails for [create]: it is a mutating operation, and
    with no valid selection it returns the new id instead of raising. *)
Lemma create_raises_nothing :
  no_valid_selection init_world /\
  result (perform Create) init_world = Ok (MatchId 1) /\
  (forall e, result (perform Create) init_world = Raise e -> False).
Proof.
  split; [exact I |]. split; [reflexivity |]. intros e H. discriminate H.
Qed.

(** C6, amended. For a request within its schema bounds and a selected
    record (if any) within its column bounds: each mutating operation
    other than [create] raises NoActiveMatch exactly when no id is
    selected or the selected id has no record, and raises nothing else;
    [create] raises nothing; neither do [get_current_state],
    [get_current_match_id] and [set_current_match_id]. *)
Theorem NoActiveMatch_is_the_only_error op w :
  Operation_valid op ->
  (forall k m, selected w k m -> Match_valid m) ->
  match op with
  | Create => exists k, result (perform op) w = Ok (MatchId k)
  | _ =>
      (raises_NoActiveMatch (perform op) w <-> no_valid_selection w) /\
      (forall e, result (perform op) w = Raise e -> NoActiveMatch e)
  end /\
  (exists s, result get_current_state w = Ok s) /\
  result get_current_match_id w = Ok (_current_match_id w) /\
  (forall id, result (set_current_match_id id) w = Ok tt).
Proof.
  intros Hop Hvalid.
  assert (Hget : exists s, result get_current_state w = Ok s).
  { destruct (get_current_state_in_bounds w Hvalid) as [s Hs].
    exists s. unfold result. now rewrite Hs. }
  split; [| split; [exact Hget | split; [reflexivity | reflexivity]]].
  destruct (is_create op) eqn:Hc.
  { destruct op; try discriminate.
    destruct (perform_create w) as (m' & ev & Hrun & _).
    eexists. unfold result. rewrite Hrun. reflexivity. }
  assert (Hgoal :
    (raises_NoActiveMatch (perform op) w <-> no_valid_selection w) /\
    (forall e, result (perform op) w = Raise e -> NoActiveMatch e)).
  { unfold raises_NoActiveMatch, no_valid_selection, result.
    destruct (selection_cases w) as [Hp | [(k & Hp & Hl) | (k & m & Hsel)]].
    - rewrite (perform_unselected op w Hc Hp), Hp. cbn [fst].
      split; [split; [trivial |] |].
      + intros _. eexists. split; [reflexivity | now left].
      + intros e [= <-]. now left.
    - rewrite (perform_missing op w k Hc Hp Hl), Hp. cbn [fst].
      split; [split; [trivial |] |].
      + intros _. eexists. split; [reflexivity | now right].
      + intros e [= <-]. now right.
    - destruct (perform_selected op w k m Hc Hsel)
        as (m' & ev & Hrun & _ & _ & _ & _ & _ & Hm').
      destruct (view_valid m' (Hm' Hop (Hvalid k m Hsel))) as [s Hs].
      rewrite Hrun, Hs. cbn [fst reply].
      destruct Hsel as [Hp Hl]. rewrite Hp, Hl.
      split; [split |].
      + intros (e & He & _). discriminate He.
      + intros He. discriminate He.
      + intros e He. discriminate He. }
  destruct op; try discriminate; exact Hgoal.
Qed.

Lemma NoActiveMatch_is_the_only_error_witness :
  Operation_valid (AddScore (ScoreAction.mk BLUE 1 999)) /\
  (forall k m, selected init_world k m -> Match_valid m) /\
  raises_NoActiveMatch (perform (AddScore (ScoreAction.mk BLUE 1 999)))
    init_world.
Proof.
  assert (Hop : Operation_valid (AddScore (ScoreAction.mk BLUE 1 999)))
    by (cbn; unfold ScoreAction_valid; cbn; lia).
  assert (Hw : forall k m, selected init_world k m -> Match_valid m)
    by (intros k m [Hp _]; discriminate Hp).
  split; [exact Hop |]. split; [exact Hw |].
  exact (proj2 (proj1 (proj1
    (NoActiveMatch_is_the_only_error
       (AddScore (ScoreAction.mk BLUE 1 999)) init_world Hop Hw))) I).
Defined.

(** ** The selection pointer *)

(** C10. [get_current_match_id] right after [set_current_match_id id]
    returns [id].  [create_new_match] points the service at the new
    match; every other operation, whether it succeeds or raises, leaves
    the pointer as it found it. *)
Theorem current_match_pointer w :
  (forall id,
     result get_current_match_id (after (set_current_match_id id) w)
     = Ok (Some id)) /\
  (forall op,
     _current_match_id (after (perform op) w) =
     match op with
     | Create => Some (matches_seq w)
     | _ => _current_match_id w
     end) /\
  _current_match_id (after get_current_state w) = _current_match_id w /\
  _current_match_id (after get_current_match_id w) = _current_match_id w.
Proof.
  split; [reflexivity |]. split; [| split; [| reflexivity]].
  - intros op. unfold after.
    destruct (is_create op) eqn:Hc.
    { destruct op; try discriminate.
      destruct (perform_create w) as (m' & ev & -> & _). reflexivity. }
    assert (Hkeep : _current_match_id (snd (perform op w))
                    = _current_match_id w).
    { destruct (selection_cases w) as [Hp | [(k & Hp & Hl) | (k & m & Hsel)]].
      - now rewrite (perform_unselected op w Hc Hp).
      - now rewrite (perform_missing op w k Hc Hp Hl).
      - destruct (perform_selected op w k m Hc Hsel) as (m' & ev & -> & _).
        cbn [snd committed _current_match_id]. symmetry. apply Hsel. }
    destruct op; try discriminate; exact Hkeep.
  - now rewrite get_current_state_reads_only.
Qed.

(** ** The repository's tests and the specification's scenarios, replayed *)

Example test_get_state_no_match :
  result get_current_state init_world
  = Ok (CurrentMatchState.mk 0 0 0 0 1 NOT_STARTED).
Proof. reflexivity. Qed.

Example test_create_new_match :
  result create_new_match init_world = Ok 1 /\
  result get_current_match_id (after create_new_match init_world)
  = Ok (Some 1).
Proof. split; reflexivity. Qed.

Example test_combined_scoring_and_penalties :
  result
    (let* k := create_new_match in
     let* _ := add_score (ScoreAction.mk BLUE 3 k) in
     add_gam_jeom (GamJeomAction.mk RED k None))
    init_world
  = Ok (CurrentMatchState.mk 4 0 0 1 1 NOT_STARTED).
Proof. reflexivity. Qed.

Example test_match_reset :
  let before_reset :=
    [Create; AddScore (ScoreAction.mk BLUE 5 1);
     AddGamJeom (GamJeomAction.mk RED 1 None);
     NextRound (RoundChange.mk 1 3);
     ChangeState (MatchStateChange.mk 1 RUNNING None)] in
  let w := after (perform_all before_reset) init_world in
  result get_current_state w = Ok (CurrentMatchState.mk 6 0 0 1 3 RUNNING) /\
  result (reset_match (MatchReset.mk 1 None)) w
  = Ok (CurrentMatchState.mk 0 0 0 0 1 NOT_STARTED).
Proof. split; reflexivity. Qed.

Example test_error_handling_no_match :
  Forall
    (fun op => result (perform op) init_world
               = Raise (ValueError "No active match"))
    [AddScore (ScoreAction.mk BLUE 1 999);
     AddGamJeom (GamJeomAction.mk BLUE 999 None);
     ChangeState (MatchStateChange.mk 999 RUNNING None);
     NextRound (RoundChange.mk 999 2);
     Reset (MatchReset.mk 999 None)].
Proof. repeat constructor. Qed.

Example test_edge_case_many_penalties :
  result
    (let* _ := perform_all
                 (Create :: replicate 5
                              (AddGamJeom (GamJeomAction.mk BLUE 1 None))) in
     get_current_state)
    init_world
  = Ok (CurrentMatchState.mk 0 5 5 0 1 NOT_STARTED).
Proof. reflexivity. Qed.

Example scenario_reset_event :
  let w :=
    after (perform_all
             [Create; AddScore (ScoreAction.mk BLUE 5 1);
              NextRound (RoundChange.mk 1 3);
              ChangeState (MatchStateChange.mk 1 RUNNING None);
              Reset (MatchReset.mk 1 None)]) init_world in
  result get_current_state w
  = Ok (CurrentMatchState.mk 0 0 0 0 1 NOT_STARTED) /\
  (fun ev => (MatchEvent.event_type ev, before_of ev, after_of ev,
              MatchEvent.round_number ev)) <$> last (match_events w)
  = Some ("RESET", (5, 0, 0, 0), (0, 0, 0, 0), 1).
Proof. split; reflexivity. Qed.

(** A stored counter outside its column bounds is the one way to make
    the snapshot constructor refuse: the write is kept, the call raises. *)
Example out_of_schema_points :
  let w := after (add_score (ScoreAction.mk BLUE (-5) 1)) first_match_world in
  result (add_score (ScoreAction.mk BLUE (-5) 1)) first_match_world
  = Raise (ValidationError ["blue_score"]) /\
  Match.blue_score <$> matches w !! 1 = Some (-5).
Proof. split; reflexivity. Qed.

(** * Further properties of the service *)

Lemma view_Ok m s :
  view m = Ok s ->
  s = CurrentMatchState.mk (Match.blue_score m) (Match.red_score m)
        (Match.blue_gam_jeom m) (Match.red_gam_jeom m)
        (Match.current_round m) (Match.match_state m).
Proof.
  unfold view, CurrentMatchState_init.
  destruct (_ ++ _)%list; [| discriminate]. now intros [= <-].
Qed.

Lemma perform_selected_explicit op w k m :
  is_create op = false -> selected w k m ->
  let m' := mutated op k (clock w) m in
  exists ev,
    perform op w = (reply (view m'), committed w k m' ev) /\
    MatchEvent.id ev = Some (match_events_seq w) /\
    MatchEvent.match_id ev = k /\
    MatchEvent.event_type ev = event_tag op /\
    MatchEvent.team_color ev = event_team op /\
    MatchEvent.points_awarded ev = event_points op /\
    MatchEvent.round_number ev = Match.current_round m' /\
    before_of ev = counters m /\
    after_of ev = counters m' /\
    MatchEvent.created_at ev = S (clock w).
Proof.
  intros Hop Hsel. cbv zeta.
  destruct op as [| a | a | c | c | r]; try discriminate;
    cbn [perform]; rewrite snapshot_bind.
  - destruct (add_score_run w k m a Hsel) as [note ->]. cbn [fst snd].
    unfold mutated, before_of, after_of, counters.
    destruct (decide (ScoreAction.team_color a = BLUE)); simpl;
      eexists; repeat split; reflexivity.
  - destruct (add_gam_jeom_run w k m a Hsel) as [note ->]. cbn [fst snd].
    unfold mutated, before_of, after_of, counters.
    destruct (decide (GamJeomAction.penalized_team a = BLUE)); simpl;
      eexists; repeat split; reflexivity.
  - destruct (change_match_state_run w k m c Hsel) as [note ->].
    cbn [fst snd]. eexists; repeat split; reflexivity.
  - destruct (next_round_run w k m c Hsel) as [note ->].
    cbn [fst snd]. eexists; repeat split; reflexivity.
  - destruct (reset_match_run w k m r Hsel) as [note ->].
    cbn [fst snd]. eexists; repeat split; reflexivity.
Qed.

Lemma mutated_valid op k now m :
  Operation_valid op -> Match_valid m -> Match_valid (mutated op k now m).
Proof.
  unfold Match_valid, Operation_valid, ScoreAction_valid, RoundChange_valid.
  destruct op as [| a | a | c | c | r]; unfold mutated;
    try destruct (decide _); simpl; lia.
Qed.

Lemma dangling_world_missing :
  _current_match_id dangling_world = Some 42 /\
  matches dangling_world !! 42 = None.
Proof. split; reflexivity. Qed.

Lemma first_match_world_valid : World_valid first_match_world.
Proof.
  intros k m.
  change (matches first_match_world)
    with (<[1 := first_match]> (∅ : gmap Z Match.t)).
  intros [[<- <-] | [_ H]]%lookup_insert_Some.
  - unfold Match_valid. simpl. lia.
  - now rewrite lookup_empty in H.
Qed.

(** ** Invariants of the store *)

(** X1. If every stored record is within its column bounds (counters at
    least 0, round at least 1), it still is after any of the six
    operations called with a request that satisfies its schema, whether
    the call succeeds or raises. *)
Theorem store_stays_valid op w :
  Operation_valid op -> World_valid w ->
  World_valid (after (perform op) w).
Proof.
  intros Hop Hw k' m'. unfold after.
  destruct (is_create op) eqn:Hc.
  - destruct op; try discriminate.
    destruct (perform_create w)
      as (m1 & ev & -> & _ & _ & _ & _ & Hz & Hr & _).
    cbn [snd matches].
    intros [[_ <-] | [_ H]]%lookup_insert_Some; [| exact (Hw _ _ H)].
    unfold Match_valid. unfold counters in Hz. injection Hz as -> -> -> ->.
    rewrite Hr. lia.
  - destruct (selection_cases w) as [Hp | [(k & Hp & Hl) | (k & m & Hsel)]].
    + rewrite (perform_unselected op w Hc Hp). apply Hw.
    + rewrite (perform_missing op w k Hc Hp Hl). apply Hw.
    + destruct (perform_selected_explicit op w k m Hc Hsel) as (ev & -> & _).
      cbn [snd committed matches].
      intros [[_ <-] | [_ H]]%lookup_insert_Some; [| exact (Hw _ _ H)].
      apply mutated_valid; [exact Hop | exact (Hw k m (proj2 Hsel))].
Qed.

Lemma store_stays_valid_witness :
  Operation_valid (AddScore (ScoreAction.mk BLUE 3 1)) /\
  World_valid first_match_world /\
  World_valid (after (perform (AddScore (ScoreAction.mk BLUE 3 1)))
                 first_match_world).
Proof.
  assert (Hop : Operation_valid (AddScore (ScoreAction.mk BLUE 3 1)))
    by (cbn; unfold ScoreAction_valid; cbn; lia).
  split; [exact Hop |]. split; [exact first_match_world_valid |].
  exact (store_stays_valid _ _ Hop first_match_world_valid).
Defined.

(** X2. Apart from [create] and [reset], an operation called with a
    request that satisfies its schema never lowers any of the four
    counters of the selected match. *)
Theorem counters_never_decrease op w k m :
  is_create op = false -> is_reset op = false ->
  Operation_valid op -> selected w k m ->
  exists m',
    matches (after (perform op) w) !! k = Some m' /\
    Match.blue_score m <= Match.blue_score m' /\
    Match.red_score m <= Match.red_score m' /\
    Match.blue_gam_jeom m <= Match.blue_gam_jeom m' /\
    Match.red_gam_jeom m <= Match.red_gam_jeom m'.
Proof.
  intros Hc Hr Hop Hsel. unfold after.
  destruct (perform_selected_explicit op w k m Hc Hsel) as (ev & -> & _).
  eexists. split; [apply selected_committed |].
  unfold Operation_valid, ScoreAction_valid in Hop.
  destruct op as [| a | a | c | c | r]; try discriminate; unfold mutated;
    try destruct (decide _); simpl; lia.
Qed.

Lemma counters_never_decrease_witness :
  is_create (AddGamJeom (GamJeomAction.mk RED 1 None)) = false /\
  is_reset (AddGamJeom (GamJeomAction.mk RED 1 None)) = false /\
  Operation_valid (AddGamJeom (GamJeomAction.mk RED 1 None)) /\
  selected first_match_world 1 first_match /\
  exists m',
    matches (after (perform (AddGamJeom (GamJeomAction.mk RED 1 None)))
               first_match_world) !! 1 = Some m' /\
    Match.blue_score first_match <= Match.blue_score m' /\
    Match.red_score first_match <= Match.red_score m' /\
    Match.blue_gam_jeom first_match <= Match.blue_gam_jeom m' /\
    Match.red_gam_jeom first_match <= Match.red_gam_jeom m'.
Proof.
  split; [reflexivity |]. split; [reflexivity |]. split; [exact I |].
  split; [exact first_match_selected |].
  exact (counters_never_decrease (AddGamJeom (GamJeomAction.mk RED 1 None))
           first_match_world 1 first_match eq_refl eq_refl I
           first_match_selected).
Defined.

(** X3. No operation removes or rewrites an event: on every path the old
    log is a prefix of the new one and at most one event is added.  For
    the operations on the selected match, none is added exactly when no
    id is selected or the selected id has no record. *)
Theorem event_log_is_append_only op w :
  exists new,
    match_events (after (perform op) w) = (match_events w ++ new)%list /\
    (length new <= 1)%nat /\
    (is_create op = false -> (new = [] <-> no_valid_selection w)).
Proof.
  unfold after. destruct (is_create op) eqn:Hc.
  - destruct op; try discriminate.
    destruct (perform_create w) as (m1 & ev & -> & _).
    exists [ev]. cbn [snd match_events]. split; [reflexivity |].
    split; [reflexivity | discriminate].
  - destruct (selection_cases w) as [Hp | [(k & Hp & Hl) | (k & m & Hsel)]].
    + rewrite (perform_unselected op w Hc Hp). exists []. cbn [snd].
      rewrite app_nil_r. unfold no_valid_selection. rewrite Hp.
      repeat split; auto.
    + rewrite (perform_missing op w k Hc Hp Hl). exists []. cbn [snd].
      rewrite app_nil_r. unfold no_valid_selection. rewrite Hp.
      repeat split; auto.
    + destruct (perform_selected_explicit op w k m Hc Hsel) as (ev & -> & _).
      exists [ev]. cbn [snd committed match_events].
      split; [reflexivity |]. split; [reflexivity |]. intros _.
      unfold no_valid_selection. destruct Hsel as [Hp Hl]. rewrite Hp, Hl.
      split; discriminate.
Qed.

(** ** Errors and reads *)

(** X4. When the selected id has no record, each operation on the
    selected match raises [ValueError("Match not found")] and leaves the
    whole world as it was, while [get_current_state] answers the default
    snapshot. *)
Theorem missing_record_is_reported op w k :
  is_create op = false ->
  _current_match_id w = Some k -> matches w !! k = None ->
  perform op w = (Raise (ValueError "Match not found"), w) /\
  get_current_state w
  = (Ok (CurrentMatchState.mk 0 0 0 0 1 NOT_STARTED), w).
Proof.
  intros Hc Hp Hl. split; [exact (perform_missing op w k Hc Hp Hl) |].
  apply get_current_state_default. unfold no_valid_selection.
  now rewrite Hp.
Qed.

Lemma missing_record_is_reported_witness :
  is_create (AddScore (ScoreAction.mk BLUE 1 42)) = false /\
  _current_match_id dangling_world = Some 42 /\
  matches dangling_world !! 42 = None /\
  perform (AddScore (ScoreAction.mk BLUE 1 42)) dangling_world
  = (Raise (ValueError "Match not found"), dangling_world).
Proof.
  split; [reflexivity |]. split; [reflexivity |]. split; [reflexivity |].
  exact (proj1 (missing_record_is_reported
                  (AddScore (ScoreAction.mk BLUE 1 42)) dangling_world 42
                  eq_refl eq_refl eq_refl)).
Defined.

(** X5. The snapshot an operation on the selected match returns is the
    state of the store: [get_current_state] called right after returns
    the same snapshot, and its six fields are those of the record now
    stored under the selected id. *)
Theorem returned_snapshot_is_current op w s :
  is_create op = false ->
  result (perform op) w = Ok (Snapshot s) ->
  let w' := after (perform op) w in
  result get_current_state w' = Ok s /\
  exists k m',
    selected w' k m' /\
    s = CurrentMatchState.mk (Match.blue_score m') (Match.red_score m')
          (Match.blue_gam_jeom m') (Match.red_gam_jeom m')
          (Match.current_round m') (Match.match_state m').
Proof.
  intros Hc. cbv zeta. unfold result, after.
  destruct (selection_cases w) as [Hp | [(k & Hp & Hl) | (k & m & Hsel)]].
  - rewrite (perform_unselected op w Hc Hp). discriminate.
  - rewrite (perform_missing op w k Hc Hp Hl). discriminate.
  - destruct (perform_selected_explicit op w k m Hc Hsel) as (ev & -> & _).
    cbn [fst snd]. intros Hres.
    destruct (view (mutated op k (clock w) m)) as [s' | e] eqn:Hview;
      [| discriminate].
    injection Hres as ->.
    rewrite (get_current_state_selected _ k _ (selected_committed _ _ _ _)).
    cbn [fst]. split; [exact Hview |].
    eexists _, _. split; [apply selected_committed |].
    exact (view_Ok _ _ Hview).
Qed.

Lemma returned_snapshot_is_current_witness :
  is_create (AddScore (ScoreAction.mk BLUE 3 1)) = false /\
  result (perform (AddScore (ScoreAction.mk BLUE 3 1))) first_match_world
  = Ok (Snapshot (CurrentMatchState.mk 3 0 0 0 1 NOT_STARTED)) /\
  result get_current_state
    (after (perform (AddScore (ScoreAction.mk BLUE 3 1))) first_match_world)
  = Ok (CurrentMatchState.mk 3 0 0 0 1 NOT_STARTED).
Proof.
  split; [reflexivity |]. split; [reflexivity |].
  exact (proj1 (returned_snapshot_is_current
                  (AddScore (ScoreAction.mk BLUE 3 1)) first_match_world
                  (CurrentMatchState.mk 3 0 0 0 1 NOT_STARTED)
                  eq_refl eq_refl)).
Defined.

(** X6. An operation on the selected match never touches the record of
    another match: under every id other than the selected one the store
    holds afterwards what it held before, on every path. *)
Theorem other_matches_untouched op w k' :
  is_create op = false ->
  _current_match_id w <> Some k' ->
  matches (after (perform op) w) !! k' = matches w !! k'.
Proof.
  intros Hc Hk'. unfold after.
  destruct (selection_cases w) as [Hp | [(k & Hp & Hl) | (k & m & Hsel)]].
  - now rewrite (perform_unselected op w Hc Hp).
  - now rewrite (perform_missing op w k Hc Hp Hl).
  - destruct (perform_selected_explicit op w k m Hc Hsel) as (ev & -> & _).
    cbn [snd committed matches]. apply lookup_insert_ne.
    intros ->. apply Hk'. apply Hsel.
Qed.

Lemma other_matches_untouched_witness :
  is_create (Reset (MatchReset.mk 1 None)) = false /\
  _current_match_id two_match_world = Some 2 /\
  matches (after (perform (Reset (MatchReset.mk 1 None))) two_match_world)
    !! 1
  = matches two_match_world !! 1.
Proof.
  split; [reflexivity |]. split; [reflexivity |].
  apply (other_matches_untouched (Reset (MatchReset.mk 1 None))
           two_match_world 1 eq_refl).
  discriminate.
Defined.

(** ** State and round changes *)

(** X7. [change_match_state] stores the requested state whatever the
    state was before (no transition is refused); counters, round and
    [created_at] keep their values, no other record changes, and the one
    event it appends is a STATE_CHANGE event without team or points whose
    two snapshots both equal the unchanged counters. *)
Theorem change_match_state_overwrites w k m c :
  selected w k m ->
  let w' := after (change_match_state c) w in
  exists m' ev,
    matches w' = <[k := m']> (matches w) /\
    Match.match_state m' = MatchStateChange.new_state c /\
    counters m' = counters m /\
    Match.current_round m' = Match.current_round m /\
    Match.created_at m' = Match.created_at m /\
    match_events w' = (match_events w ++ [ev])%list /\
    MatchEvent.event_type ev = "STATE_CHANGE" /\
    MatchEvent.team_color ev = None /\
    MatchEvent.points_awarded ev = 0 /\
    before_of ev = counters m /\ after_of ev = counters m.
Proof.
  intros Hsel. cbv zeta.
  destruct (change_match_state_run w k m c Hsel) as [note Hrun].
  unfold after. rewrite Hrun. cbn [snd committed matches match_events].
  eexists _, _. repeat split; reflexivity.
Qed.

Lemma change_match_state_overwrites_witness :
  selected first_match_world 1 first_match /\
  exists m',
    matches (after (change_match_state (MatchStateChange.mk 1 FINISHED None))
               first_match_world) !! 1 = Some m' /\
    Match.match_state m' = FINISHED /\ counters m' = (0, 0, 0, 0).
Proof.
  split; [exact first_match_selected |].
  destruct (change_match_state_overwrites first_match_world 1 first_match
              (MatchStateChange.mk 1 FINISHED None) first_match_selected)
    as (m' & ev & Hm & Hst & Hc & _).
  exists m'. rewrite Hm, lookup_insert_eq.
  split; [reflexivity |]. split; [exact Hst | exact Hc].
Defined.

(** X8. [next_round] stores the requested round whatever the round was
    before (it may stay or go back); counters, state and [created_at]
    keep their values, no other record changes, and the one event it
    appends is a ROUND_CHANGE event without team or points whose two
    snapshots both equal the unchanged counters. *)
Theorem next_round_overwrites w k m c :
  selected w k m ->
  let w' := after (next_round c) w in
  exists m' ev,
    matches w' = <[k := m']> (matches w) /\
    Match.current_round m' = RoundChange.new_round c /\
    counters m' = counters m /\
    Match.match_state m' = Match.match_state m /\
    Match.created_at m' = Match.created_at m /\
    match_events w' = (match_events w ++ [ev])%list /\
    MatchEvent.event_type ev = "ROUND_CHANGE" /\
    MatchEvent.team_color ev = None /\
    MatchEvent.points_awarded ev = 0 /\
    before_of ev = counters m /\ after_of ev = counters m.
Proof.
  intros Hsel. cbv zeta.
  destruct (next_round_run w k m c Hsel) as [note Hrun].
  unfold after. rewrite Hrun. cbn [snd committed matches match_events].
  eexists _, _. repeat split; reflexivity.
Qed.

Lemma next_round_overwrites_witness :
  selected first_match_world 1 first_match /\
  exists m',
    matches (after (next_round (RoundChange.mk 1 1)) first_match_world) !! 1
    = Some m' /\
    Match.current_round m' = 1 /\ Match.match_state m' = NOT_STARTED.
Proof.
  split; [exact first_match_selected |].
  destruct (next_round_overwrites first_match_world 1 first_match
              (RoundChange.mk 1 1) first_match_selected)
    as (m' & ev & Hm & Hr & _ & Hst & _).
  exists m'. rewrite Hm, lookup_insert_eq.
  split; [reflexivity |]. split; [exact Hr | exact Hst].
Defined.

(** ** The audit trail of a whole match *)

Lemma perform_all_run ops :
  forall w k m,
    selected w k m -> Match_valid m -> Forall on_selected ops ->
    exists m' new,
      result (perform_all ops) w = Ok tt /\
      selected (after (perform_all ops) w) k m' /\
      Match_valid m' /\
      match_events (after (perform_all ops) w)
      = (match_events w ++ new)%list /\
      length new = length ops /\
      Forall (fun e => MatchEvent.match_id e = k) new /\
      chained (counters m) new = Some (counters m').
Proof.
  induction ops as [| op ops IH]; intros w k m Hsel Hm Hops.
  - exists m, []. unfold result, after. cbn [perform_all ret fst snd].
    rewrite app_nil_r. split; [reflexivity |]. split; [exact Hsel |].
    split; [exact Hm |]. split; [reflexivity |]. split; [reflexivity |].
    split; [constructor | reflexivity].
  - apply Forall_cons in Hops as [[Hc Hop] Hops].
    destruct (perform_selected_explicit op w k m Hc Hsel)
      as (ev & Hrun & _ & Hid & _ & _ & _ & _ & Hb & Ha & _).
    set (m1 := mutated op k (clock w) m) in *.
    assert (Hm1 : Match_valid m1) by (apply mutated_valid; assumption).
    destruct (view_valid m1 Hm1) as [s Hs]. rewrite Hs in Hrun.
    assert (Hstep : perform_all (op :: ops) w
                    = perform_all ops (committed w k m1 ev)).
    { cbn [perform_all]. unfold bind at 1. now rewrite Hrun. }
    destruct (IH (committed w k m1 ev) k m1
                (selected_committed w k m1 ev) Hm1 Hops)
      as (m' & new & Hres & Hsel' & Hm' & Hev & Hlen & Hids & Hch).
    exists m', (ev :: new). unfold result, after in *. rewrite Hstep.
    split; [exact Hres |]. split; [exact Hsel' |]. split; [exact Hm' |].
    split.
    { rewrite Hev. cbn [committed match_events].
      now rewrite <- app_assoc. }
    split; [cbn; now rewrite Hlen |].
    split; [constructor; assumption |].
    cbn [chained]. rewrite Hb, decide_True by reflexivity.
    now rewrite Ha.
Qed.

(** X9. The log is a complete audit trail.  After [create_new_match], a
    run of operations on the selected match whose requests satisfy their
    schemas goes through without an exception and appends one event per
    operation, all for the new match; replayed from zero, each event
    starts at the counters where the one before it ended, beginning with
    the MATCH_CREATED event, and the last one ends at the counters now
    stored. *)
Theorem audit_trail_replays w ops :
  Forall on_selected ops ->
  let k := matches_seq w in
  let w1 := after create_new_match w in
  let w2 := after (perform_all ops) w1 in
  result (perform_all ops) w1 = Ok tt /\
  exists m created new,
    matches w2 !! k = Some m /\
    match_events w2 = (match_events w ++ created :: new)%list /\
    MatchEvent.event_type created = "MATCH_CREATED" /\
    length new = length ops /\
    Forall (fun e => MatchEvent.match_id e = k) (created :: new) /\
    chained (0, 0, 0, 0) (created :: new) = Some (counters m).
Proof.
  intros Hops. cbv zeta.
  pose proof (create_new_match_run w) as Hnew. cbv zeta in Hnew.
  unfold after. rewrite Hnew. cbn [snd].
  set (m0 := Match.mk (Some (matches_seq w)) 0 0 0 0 1 NOT_STARTED
               (clock w) (S (clock w))).
  match goal with
  | |- context [result (perform_all ops) ?x] => set (w1 := x)
  end.
  assert (Hsel : selected w1 (matches_seq w) m0)
    by (split; [reflexivity | apply lookup_insert_eq]).
  assert (Hm0 : Match_valid m0) by (unfold Match_valid; simpl; lia).
  destruct (perform_all_run ops w1 _ m0 Hsel Hm0 Hops)
    as (m & new & Hres & Hsel' & _ & Hev & Hlen & Hids & Hch).
  unfold after in Hsel', Hev.
  split; [exact Hres |].
  eexists m, _, new. split; [apply Hsel' |].
  split.
  { rewrite Hev. subst w1. cbn [match_events].
    rewrite <- app_assoc. reflexivity. }
  split; [reflexivity |]. split; [exact Hlen |].
  split; [constructor; [reflexivity | exact Hids] |].
  exact Hch.
Qed.

Lemma audit_trail_replays_witness :
  Forall on_selected
    [AddScore (ScoreAction.mk BLUE 5 1); NextRound (RoundChange.mk 1 3);
     Reset (MatchReset.mk 1 None)] /\
  result
    (perform_all
       [AddScore (ScoreAction.mk BLUE 5 1); NextRound (RoundChange.mk 1 3);
        Reset (MatchReset.mk 1 None)])
    (after create_new_match init_world)
  = Ok tt.
Proof.
  assert (H : Forall on_selected
    [AddScore (ScoreAction.mk BLUE 5 1); NextRound (RoundChange.mk 1 3);
     Reset (MatchReset.mk 1 None)]).
  { repeat constructor; cbn; unfold ScoreAction_valid, RoundChange_valid;
      cbn; lia. }
  split; [exact H |].
  exact (proj1 (audit_trail_replays init_world _ H)).
Defined.

(** ** Penalty counts of a run of calls *)

Lemma call_explicit c w k m :
  selected w k m ->
  let m' := mutated (as_operation c) k (clock w) m in
  exists ev, call c w = (view m', committed w k m' ev).
Proof.
  intros Hsel. cbv zeta.
  destruct (perform_selected_explicit (as_operation c) w k m) as (ev & H & _);
    [now destruct c | exact Hsel |].
  exists ev. destruct c as [a | a]; cbn [as_operation perform call] in *;
    rewrite snapshot_bind in H;
    match goal with
    | |- ?f ?a ?w = _ => destruct (f a w) as [[s | e] w'] end;
    cbn [fst snd reply] in H;
    destruct (view _) as [s' | e'];
    cbn [reply] in H; congruence.
Qed.

Lemma calls_run_counts cs :
  forall w k m,
    selected w k m -> Match_valid m -> Forall Call_valid cs ->
    exists m',
      selected (after (calls cs) w) k m' /\
      Match.blue_score m' = Match.blue_score m + total_for BLUE cs /\
      Match.red_score m' = Match.red_score m + total_for RED cs /\
      Match.blue_gam_jeom m'
      = Match.blue_gam_jeom m + penalties_for BLUE cs /\
      Match.red_gam_jeom m' = Match.red_gam_jeom m + penalties_for RED cs /\
      Match.current_round m' = Match.current_round m /\
      Match.match_state m' = Match.match_state m.
Proof.
  induction cs as [| c cs IH]; intros w k m Hsel Hm Hcs.
  - exists m. cbn [total_for penalties_for]. split; [exact Hsel |].
    repeat split; lia.
  - apply Forall_cons in Hcs as [Hc Hcs].
    destruct (call_explicit c w k m Hsel) as [ev Hrun].
    set (m1 := mutated (as_operation c) k (clock w) m) in *.
    assert (Hm1 : Match_valid m1).
    { apply mutated_valid; [now destruct c | exact Hm]. }
    destruct (view_valid m1 Hm1) as [s Hs]. rewrite Hs in Hrun.
    assert (Hstep : calls (c :: cs) w = calls cs (committed w k m1 ev)).
    { cbn [calls]. unfold bind. now rewrite Hrun. }
    destruct (IH (committed w k m1 ev) k m1
                (selected_committed w k m1 ev) Hm1 Hcs)
      as (m' & Hsel' & Hbs & Hrs & Hbg & Hrg & Hcr & Hst).
    exists m'. unfold after in *. rewrite Hstep.
    split; [exact Hsel' |].
    rewrite Hbs, Hrs, Hbg, Hrg, Hcr, Hst. subst m1.
    destruct c as [a | a];
      cbn [as_operation mutated total_for penalties_for points_for opponent];
      destruct a as [t ? ?]; destruct t; simpl; repeat split; lia.
Qed.

Lemma penalties_le_total t cs :
  Forall Call_valid cs -> penalties_for (opponent t) cs <= total_for t cs.
Proof.
  induction 1 as [| c cs Hc _ IH]; [reflexivity |].
  destruct c as [a | a]; cbn [penalties_for total_for points_for].
  - unfold Call_valid, ScoreAction_valid in Hc.
    destruct (decide _); lia.
  - destruct (decide _); lia.
Qed.

(** X10. After [create_new_match], a run of [add_score] and
    [add_gam_jeom] calls whose requests satisfy their schema leaves each
    team's gam-jeom counter equal to the number of penalties called
    against it; a team's score is never below the opponent's gam-jeom
    counter, and the round and the match state are still 1 and
    NOT_STARTED. *)
Theorem penalties_add_up w cs :
  Forall Call_valid cs ->
  let k := matches_seq w in
  let w1 := after create_new_match w in
  exists m,
    matches (after (calls cs) w1) !! k = Some m /\
    Match.blue_gam_jeom m = penalties_for BLUE cs /\
    Match.red_gam_jeom m = penalties_for RED cs /\
    Match.red_gam_jeom m <= Match.blue_score m /\
    Match.blue_gam_jeom m <= Match.red_score m /\
    Match.current_round m = 1 /\
    Match.match_state m = NOT_STARTED.
Proof.
  intros Hcs. cbv zeta.
  pose proof (create_new_match_run w) as Hnew. cbv zeta in Hnew.
  unfold after at 2. rewrite Hnew. cbn [snd].
  set (m0 := Match.mk (Some (matches_seq w)) 0 0 0 0 1 NOT_STARTED
               (clock w) (S (clock w))).
  match goal with
  | |- context [after (calls cs) ?x] => set (w1 := x)
  end.
  assert (Hsel : selected w1 (matches_seq w) m0)
    by (split; [reflexivity | apply lookup_insert_eq]).
  assert (Hm0 : Match_valid m0) by (unfold Match_valid; simpl; lia).
  destruct (calls_run_counts cs w1 _ m0 Hsel Hm0 Hcs)
    as (m & Hsel' & Hbs & Hrs & Hbg & Hrg & Hcr & Hst).
  exists m. split; [apply Hsel' |].
  pose proof (penalties_le_total BLUE cs Hcs) as Hb.
  pose proof (penalties_le_total RED cs Hcs) as Hr.
  cbn [opponent] in Hb, Hr. simpl in Hbs, Hrs, Hbg, Hrg, Hcr, Hst.
  repeat split; try assumption; lia.
Qed.

Lemma penalties_add_up_witness :
  Forall Call_valid
    (replicate 5 (GamJeom (GamJeomAction.mk BLUE 1 None))) /\
  exists m,
    matches (after (calls (replicate 5
                             (GamJeom (GamJeomAction.mk BLUE 1 None))))
               (after create_new_match init_world)) !! 1 = Some m /\
    Match.blue_gam_jeom m = 5 /\ Match.red_gam_jeom m = 0.
Proof.
  assert (H : Forall Call_valid
                (replicate 5 (GamJeom (GamJeomAction.mk BLUE 1 None))))
    by (repeat constructor).
  split; [exact H |].
  destruct (penalties_add_up init_world _ H)
    as (m & Hm & Hbg & Hrg & _).
  exists m. split; [exact Hm |]. split; [exact Hbg | exact Hrg].
Defined.

(** ** What a request can and cannot do *)

(** X11. The service never reads the [match_id] or the [notes] of a
    request: two requests of the same kind that agree on their other
    fields have the same result and leave the same world, so every
    request acts on the selected match, whichever match it names. *)
Theorem request_ids_and_notes_are_ignored op1 op2 w :
  payload op1 = payload op2 -> perform op1 w = perform op2 w.
Proof.
  destruct op1 as [| [t1 p1 i1] | [t1 i1 n1] | [i1 s1 n1] | [i1 r1] | [i1 n1]],
           op2 as [| [t2 p2 i2] | [t2 i2 n2] | [i2 s2 n2] | [i2 r2] | [i2 n2]];
    cbn [payload ScoreAction.team_color ScoreAction.points
         GamJeomAction.penalized_team MatchStateChange.new_state
         RoundChange.new_round];
    try discriminate; intros [= ]; subst; reflexivity.
Qed.

Lemma request_ids_and_notes_are_ignored_witness :
  payload (AddScore (ScoreAction.mk BLUE 3 999))
  = payload (AddScore (ScoreAction.mk BLUE 3 1)) /\
  perform (AddScore (ScoreAction.mk BLUE 3 999)) first_match_world
  = perform (AddScore (ScoreAction.mk BLUE 3 1)) first_match_world.
Proof.
  split; [reflexivity |].
  exact (request_ids_and_notes_are_ignored
           (AddScore (ScoreAction.mk BLUE 3 999))
           (AddScore (ScoreAction.mk BLUE 3 1)) first_match_world eq_refl).
Defined.

(** X12. The event an operation on the selected match appends describes
    it: SCORE and GAM_JEOM events name the team concerned and carry the
    points (the request's points, respectively 1), the other events name
    no team and carry 0 points; and except for RESET the two scores rise
    between the event's snapshots by [points_awarded] in total, and the
    two gam-jeom counters by 1 for GAM_JEOM and by 0 otherwise. *)
Theorem event_describes_operation op w k m :
  is_create op = false -> selected w k m ->
  exists ev,
    match_events (after (perform op) w) = (match_events w ++ [ev])%list /\
    MatchEvent.event_type ev = event_tag op /\
    MatchEvent.team_color ev = event_team op /\
    MatchEvent.points_awarded ev = event_points op /\
    (is_reset op = false ->
     MatchEvent.blue_score_after ev + MatchEvent.red_score_after ev
     = MatchEvent.blue_score_before ev + MatchEvent.red_score_before ev
       + MatchEvent.points_awarded ev /\
     MatchEvent.blue_gam_jeom_after ev + MatchEvent.red_gam_jeom_after ev
     = MatchEvent.blue_gam_jeom_before ev + MatchEvent.red_gam_jeom_before ev
       + (if is_gam_jeom op then 1 else 0)).
Proof.
  intros Hc Hsel. unfold after.
  destruct (perform_selected_explicit op w k m Hc Hsel)
    as (ev & -> & _ & _ & Htag & Hteam & Hpts & _ & Hb & Ha & _).
  exists ev. cbn [snd committed match_events].
  split; [reflexivity |]. split; [exact Htag |]. split; [exact Hteam |].
  split; [exact Hpts |]. intros Hr.
  unfold before_of, after_of, counters in Hb, Ha.
  injection Hb as -> -> -> ->. injection Ha as -> -> -> ->.
  rewrite Hpts.
  destruct op as [| a | a | c | c | r]; try discriminate;
    unfold mutated; try destruct (decide _); simpl; lia.
Qed.

Lemma event_describes_operation_witness :
  is_create (AddGamJeom (GamJeomAction.mk BLUE 1 None)) = false /\
  selected first_match_world 1 first_match /\
  exists ev,
    match_events (after (perform (AddGamJeom (GamJeomAction.mk BLUE 1 None)))
                    first_match_world)
    = (match_events first_match_world ++ [ev])%list /\
    MatchEvent.event_type ev = "GAM_JEOM" /\
    MatchEvent.team_color ev = Some BLUE /\
    MatchEvent.points_awarded ev = 1.
Proof.
  split; [reflexivity |]. split; [exact first_match_selected |].
  destruct (event_describes_operation
              (AddGamJeom (GamJeomAction.mk BLUE 1 None))
              first_match_world 1 first_match eq_refl first_match_selected)
    as (ev & Hev & Htag & Hteam & Hpts & _).
  exists ev. split; [exact Hev |]. split; [exact Htag |].
  split; [exact Hteam | exact Hpts].
Defined.

(** * Properties of the scoring page *)

Lemma update_display_selected st k m s :
  selected (match_service st) k m -> view m = Ok s ->
  _update_display st
  = (Ok tt, mkApp (match_service st) (shown s (scoring_ui st))
              (notifications st) (logged st)).
Proof.
  intros Hsel Hs. destruct st as [w u ns lg]. cbn [match_service] in Hsel.
  unfold _update_display. ui_exec.
  rewrite (get_current_state_selected w k m Hsel), Hs.
  reflexivity.
Qed.

Lemma invoke_explicit op w k m :
  is_create op = false -> selected w k m ->
  let m' := mutated op k (clock w) m in
  exists ev,
    match op with
    | Create => (view m', committed w k m' ev)
    | AddScore a => add_score a w
    | AddGamJeom a => add_gam_jeom a w
    | ChangeState c => change_match_state c w
    | NextRound c => next_round c w
    | Reset r => reset_match r w
    end = (view m', committed w k m' ev).
Proof.
  intros Hc Hsel. cbv zeta.
  destruct (perform_selected_explicit op w k m Hc Hsel) as (ev & H & _).
  exists ev. destruct op; try discriminate; cbn [perform] in H;
    rewrite snapshot_bind in H;
    match goal with
    | |- ?f ?a ?w = _ => destruct (f a w) as [[s | e] w'] end;
    cbn [fst snd reply] in H;
    destruct (view _) as [s' | e'];
    cbn [reply] in H; congruence.
Qed.

Lemma RoundChange_init_Ok id r :
  1 <= r -> RoundChange_init id r = Ok (RoundChange.mk id r).
Proof.
  intros H. unfold RoundChange_init, check_ge.
  destruct (Z.ltb_spec r 1); [lia | reflexivity].
Qed.

Lemma button_operation_valid b k m :
  Match_valid m -> Operation_valid (button_operation b k m).
Proof.
  intros (_ & _ & _ & _ & Hr).
  destruct b; cbn; unfold ScoreAction_valid, RoundChange_valid; cbn;
    try lia; exact I.
Qed.

Lemma on_click_selected b st k m :
  selected (match_service st) k m -> Match_valid m ->
  let w := match_service st in
  let m' := mutated (button_operation b k m) k (clock w) m in
  exists ev s new,
    view m' = Ok s /\
    on_click b st
    = (Ok tt, mkApp (committed w k m' ev) (shown s (scoring_ui st))
                (notifications st ++ new)%list (logged st)) /\
    no_error new /\ (length new <= 1)%nat.
Proof.
  intros Hsel Hm. cbv zeta.
  pose proof (button_operation_valid b k m Hm) as Hop.
  destruct (view_valid _
              (mutated_valid _ k (clock (match_service st)) m Hop Hm))
    as [s Hs].
  destruct (view_valid m Hm) as [s0 Hs0].
  pose proof (view_Ok _ _ Hs0) as Hs0'.
  destruct st as [w u ns lg].
  cbn [match_service scoring_ui notifications logged] in *.
  destruct (invoke_explicit (button_operation b k m) w k m) as [ev Hrun];
    [now destruct b | exact Hsel |].
  pose proof Hsel as [Hp Hl].
  exists ev, s.
  destruct b; cbn [button_operation] in Hrun, Hs |- *; ui_exec; rewrite Hp;
    try (rewrite (get_current_state_selected w k m Hsel), Hs0, Hs0';
         cbn [CurrentMatchState.current_round];
         rewrite RoundChange_init_Ok
           by (destruct Hm as (_ & _ & _ & _ & ?); lia));
    built_requests; ui_exec;
    rewrite Hrun, Hs;
    erewrite update_display_selected
      by (first [apply selected_committed | exact Hs]);
    cbn [match_service scoring_ui notifications logged].
  all: try (exists []; rewrite app_nil_r; split; [reflexivity |];
            split; [reflexivity |]; split; [constructor | cbn; lia]).
  all: eexists [_]; split; [reflexivity |]; split; [reflexivity |];
    split; [repeat constructor; discriminate | cbn; lia].
Qed.

Lemma shown_displays u m s :
  laid_out u -> view m = Ok s -> displays (shown s u) m.
Proof.
  destruct u as [l1 l2 l3 l4 l5]. unfold laid_out, displays, shown.
  cbn [blue_score_label red_score_label blue_gam_jeom_label
       red_gam_jeom_label round_label].
  intros ([? ->] & [? ->] & [? ->] & [? ->] & [? ->]) Hs.
  rewrite (view_Ok m s Hs). repeat split.
Qed.

Lemma displays_laid_out u m : displays u m -> laid_out u.
Proof.
  intros (H1 & H2 & H3 & H4 & H5). unfold laid_out.
  rewrite H1, H2, H3, H4, H5. repeat split; eexists; reflexivity.
Qed.

Lemma shown_laid_out u s : laid_out u -> laid_out (shown s u).
Proof.
  destruct u as [l1 l2 l3 l4 l5]. unfold laid_out, shown.
  cbn [blue_score_label red_score_label blue_gam_jeom_label
       red_gam_jeom_label round_label].
  intros ([? ->] & [? ->] & [? ->] & [? ->] & [? ->]).
  repeat split; eexists; reflexivity.
Qed.

Lemma opened_app_selected : selected (match_service opened_app) 1 first_match.
Proof. split; reflexivity. Qed.

Lemma first_match_valid : Match_valid first_match.
Proof. unfold Match_valid. simpl. lia. Qed.

Lemma opened_app_displays : displays (scoring_ui opened_app) first_match.
Proof. repeat split. Qed.

(** X13. With no match id selected, a click on any of the ten buttons
    does nothing at all: no call reaches the store, no label changes,
    nothing is notified or logged. *)
Theorem click_without_selection_does_nothing b st :
  _current_match_id (match_service st) = None ->
  on_click b st = (Ok tt, st).
Proof.
  intros Hp. destruct st as [w u ns lg]. cbn [match_service] in Hp.
  destruct b; ui_exec; rewrite Hp; reflexivity.
Qed.

Lemma click_without_selection_does_nothing_witness :
  _current_match_id (match_service init_app) = None /\
  on_click ResetButton init_app = (Ok tt, init_app).
Proof.
  split; [reflexivity |].
  exact (click_without_selection_does_nothing ResetButton init_app eq_refl).
Defined.

(** X14. [_add_blue_score] and [_add_red_score] called with points
    outside 1..10 while a match id is selected write nothing: the request
    is refused when it is built, the store and the labels stay as they
    were, and the user gets one error notification (also logged) carrying
    the validation error on [points]. *)
Theorem out_of_range_points_are_refused p st k :
  ~ (1 <= p <= 10) ->
  _current_match_id (match_service st) = Some k ->
  let refused prefix :=
    (Ok tt,
     mkApp (match_service st) (scoring_ui st)
       (notifications st
        ++ [Notification.mk (WithError prefix (ValidationError ["points"]))
              "negative" None None])%list
       (logged st ++ [WithError prefix (ValidationError ["points"])])%list) in
  _add_blue_score p st = refused "Error adding blue score: " /\
  _add_red_score p st = refused "Error adding red score: ".
Proof.
  intros Hp Hk. cbv zeta. destruct st as [w u ns lg].
  cbn [match_service scoring_ui notifications logged] in *.
  assert (Hinit : forall t,
    ScoreAction_init t p k = Raise (ValidationError ["points"])).
  { intros t. unfold ScoreAction_init, check_ge, check_le.
    destruct (Z.ltb_spec p 1), (Z.ltb_spec 10 p); try lia; reflexivity. }
  split; ui_exec; rewrite Hk, Hinit; reflexivity.
Qed.

Lemma out_of_range_points_are_refused_witness :
  ~ (1 <= 11 <= 10) /\
  _current_match_id (match_service opened_app) = Some 1 /\
  match_service (snd (_add_blue_score 11 opened_app))
  = match_service opened_app.
Proof.
  assert (H : ~ (1 <= 11 <= 10)) by lia.
  split; [exact H |]. split; [reflexivity |].
  rewrite (proj1 (out_of_range_points_are_refused 11 opened_app 1 H eq_refl)).
  reflexivity.
Defined.

(** X15. When the selected match exists, is within its column bounds and
    the page has been laid out, a click on any button succeeds, and
    afterwards the five labels show exactly the values of the record now
    stored under the selected id. *)
Theorem display_follows_the_store b st k m :
  selected (match_service st) k m -> Match_valid m ->
  laid_out (scoring_ui st) ->
  let st' := snd (on_click b st) in
  fst (on_click b st) = Ok tt /\
  exists m',
    selected (match_service st') k m' /\
    displays (scoring_ui st') m'.
Proof.
  intros Hsel Hm Hu. cbv zeta.
  destruct (on_click_selected b st k m Hsel Hm)
    as (ev & s & new & Hs & -> & _).
  cbn [fst snd match_service scoring_ui]. split; [reflexivity |].
  eexists. split; [apply selected_committed |].
  exact (shown_displays _ _ _ Hu Hs).
Qed.

Lemma display_follows_the_store_witness :
  selected (match_service opened_app) 1 first_match /\
  Match_valid first_match /\
  laid_out (scoring_ui opened_app) /\
  fst (on_click BluePlus3 opened_app) = Ok tt.
Proof.
  split; [exact opened_app_selected |]. split; [exact first_match_valid |].
  split; [exact (displays_laid_out _ _ opened_app_displays) |].
  exact (proj1 (display_follows_the_store BluePlus3 opened_app 1 first_match
                  opened_app_selected first_match_valid
                  (displays_laid_out _ _ opened_app_displays))).
Defined.

(** X16. With a selected match within its column bounds, the Next Round
    button moves the match to the round after the current one: the stored
    round grows by exactly 1, counters and match state keep their values,
    and the user is told the number of the round that started. *)
Theorem next_round_button_adds_one st k m :
  selected (match_service st) k m -> Match_valid m ->
  let st' := snd (_next_round st) in
  let n := Match.current_round m + 1 in
  exists m',
    selected (match_service st') k m' /\
    Match.current_round m' = n /\
    counters m' = counters m /\
    Match.match_state m' = Match.match_state m /\
    notifications st'
    = (notifications st
       ++ [Notification.mk (Plain ("Round " +:+ pretty n +:+ " started!"))
             "positive" (Some "top") (Some 2000)])%list /\
    logged st' = logged st.
Proof.
  intros Hsel Hm. cbv zeta.
  set (op := NextRound (RoundChange.mk k (Match.current_round m + 1))).
  assert (Hop : Operation_valid op)
    by (destruct Hm as (_ & _ & _ & _ & ?); cbn; unfold RoundChange_valid;
        cbn; lia).
  destruct (view_valid _
              (mutated_valid _ k (clock (match_service st)) m Hop Hm))
    as [s Hs].
  destruct (view_valid m Hm) as [s0 Hs0].
  pose proof (view_Ok _ _ Hs0) as Hs0'.
  destruct st as [w u ns lg].
  cbn [match_service scoring_ui notifications logged] in *.
  destruct (invoke_explicit op w k m eq_refl Hsel) as [ev Hrun].
  pose proof Hsel as [Hp Hl]. subst op. cbv zeta in Hrun.
  ui_exec. rewrite Hp.
  rewrite (get_current_state_selected w k m Hsel), Hs0, Hs0'.
  cbn [CurrentMatchState.current_round].
  rewrite RoundChange_init_Ok by (destruct Hm as (_ & _ & _ & _ & ?); lia).
  ui_exec. rewrite Hrun, Hs.
  erewrite update_display_selected
    by (first [apply selected_committed | exact Hs]).
  cbn [match_service scoring_ui notifications logged].
  eexists. split; [apply selected_committed |].
  repeat split; reflexivity.
Qed.

Lemma next_round_button_adds_one_witness :
  selected (match_service opened_app) 1 first_match /\
  Match_valid first_match /\
  exists m',
    selected (match_service (snd (_next_round opened_app))) 1 m' /\
    Match.current_round m' = 2.
Proof.
  split; [exact opened_app_selected |]. split; [exact first_match_valid |].
  destruct (next_round_button_adds_one opened_app 1 first_match
              opened_app_selected first_match_valid)
    as (m' & Hsel & Hr & _).
  exists m'. split; [exact Hsel | exact Hr].
Defined.

Lemma update_display_keeps_service st :
  fst (_update_display st) = Ok tt /\
  match_service (snd (_update_display st)) = match_service st.
Proof.
  destruct st as [w u ns lg]. unfold _update_display. ui_exec.
  pose proof (get_current_state_reads_only w) as Hw. unfold after in Hw.
  destruct (get_current_state w) as [[s | e] w']; cbn [snd] in Hw; subst w';
    split; reflexivity.
Qed.

Lemma scoring_page_with_id st k :
  _current_match_id (match_service st) = Some k ->
  scoring_page st
  = _update_display
      (mkApp (match_service st)
         (mkScoringUI (Some "0") (Some "0") (Some "0") (Some "0")
            (Some "ROUND 1"))
         (notifications st) (logged st)).
Proof.
  intros Hp. destruct st as [w u ns lg]. cbn [match_service] in Hp.
  unfold scoring_page, _create_main_layout. ui_exec. rewrite Hp.
  reflexivity.
Qed.

Lemma scoring_page_without_id st :
  _current_match_id (match_service st) = None ->
  scoring_page st
  = _update_display
      (mkApp (after create_new_match (match_service st))
         (mkScoringUI (Some "0") (Some "0") (Some "0") (Some "0")
            (Some "ROUND 1"))
         (notifications st) (logged st)).
Proof.
  intros Hp. destruct st as [w u ns lg]. cbn [match_service] in Hp.
  unfold scoring_page, _create_main_layout. ui_exec. rewrite Hp.
  pose proof (create_new_match_run w) as Hnew. cbv zeta in Hnew.
  unfold after. rewrite Hnew. reflexivity.
Qed.

(** X17. Opening the page always succeeds, and it creates a match only
    when no id is selected: then it creates and selects one and shows 0,
    0, 0, 0 and ROUND 1.  Whenever an id is selected, whether or not the
    store has a record for it, opening the page leaves the service and
    the store exactly as they were, so a reload never creates a second
    match.  If the selected record is within its column bounds the
    labels show its values; if the selected id has no record they show
    the defaults 0, 0, 0, 0 and ROUND 1 and nothing is notified or
    logged. *)
Theorem page_creates_a_match_only_when_none_is_selected st :
  let st' := snd (scoring_page st) in
  let w := match_service st in
  let initial :=
    mkScoringUI (Some "0") (Some "0") (Some "0") (Some "0")
      (Some "ROUND 1") in
  fst (scoring_page st) = Ok tt /\
  (_current_match_id w = None ->
   match_service st' = after create_new_match w /\
   scoring_ui st' = initial) /\
  (forall k, _current_match_id w = Some k -> match_service st' = w) /\
  (forall k m,
     selected w k m -> Match_valid m -> displays (scoring_ui st') m) /\
  (forall k,
     _current_match_id w = Some k -> matches w !! k = None ->
     scoring_ui st' = initial /\
     notifications st' = notifications st /\ logged st' = logged st).
Proof.
  cbv zeta.
  assert (Hnone : _current_match_id (match_service st) = None ->
    scoring_page st
    = (Ok tt,
       mkApp (after create_new_match (match_service st))
         (mkScoringUI (Some "0") (Some "0") (Some "0") (Some "0")
            (Some "ROUND 1"))
         (notifications st) (logged st))).
  { intros Hp. rewrite (scoring_page_without_id st Hp).
    pose proof (create_new_match_run (match_service st)) as Hnew.
    cbv zeta in Hnew. unfold after. rewrite Hnew. cbn [snd].
    erewrite update_display_selected;
      [| split; [reflexivity | apply lookup_insert_eq] | reflexivity].
    reflexivity. }
  split; [| split; [| split; [| split]]].
  - destruct (_current_match_id (match_service st)) as [k |] eqn:Hp.
    + rewrite (scoring_page_with_id st k Hp).
      exact (proj1 (update_display_keeps_service _)).
    + now rewrite (Hnone eq_refl).
  - intros Hp. rewrite (Hnone Hp). split; reflexivity.
  - intros k Hp. rewrite (scoring_page_with_id st k Hp).
    exact (proj2 (update_display_keeps_service _)).
  - intros k m Hsel Hm. destruct (view_valid m Hm) as [s Hs].
    rewrite (scoring_page_with_id st k (proj1 Hsel)).
    erewrite update_display_selected; [| exact Hsel | exact Hs].
    cbn [snd scoring_ui]. apply shown_displays; [| exact Hs].
    repeat split; eexists; reflexivity.
  - intros k Hp Hl. rewrite (scoring_page_with_id st k Hp).
    destruct st as [w u ns lg]. cbn [match_service notifications logged] in *.
    unfold _update_display. ui_exec.
    rewrite get_current_state_default
      by (unfold no_valid_selection; now rewrite Hp).
    repeat split.
Qed.

(** A reload with a selected id that has no record: nothing is created,
    the event log stays empty and the pointer stays where it was. *)
Example reload_with_a_missing_record :
  let st := mkApp dangling_world (mkScoringUI None None None None None)
              [] [] in
  let st' := snd (scoring_page st) in
  match_service st' = dangling_world /\
  match_events (match_service st') = [] /\
  _current_match_id (match_service st') = Some 42.
Proof. cbv zeta. repeat split; reflexivity. Qed.

(** ** A session of clicks *)

(** X18. A session on the page cannot go wrong.  From a state in which
    the selected match exists, is within its column bounds and is what
    the labels show, any series of button clicks succeeds; afterwards the
    selected match is still within bounds and is what the labels show,
    nothing was logged, no error was notified, and the event log has
    grown by exactly one event per click. *)
Theorem clicks_keep_the_page_sound bs st k m :
  selected (match_service st) k m -> Match_valid m ->
  displays (scoring_ui st) m ->
  let st' := snd (clicks bs st) in
  fst (clicks bs st) = Ok tt /\
  exists m' new,
    selected (match_service st') k m' /\
    Match_valid m' /\
    displays (scoring_ui st') m' /\
    logged st' = logged st /\
    notifications st' = (notifications st ++ new)%list /\
    no_error new /\
    length (match_events (match_service st'))
    = (length (match_events (match_service st)) + length bs)%nat.
Proof.
  revert st k m.
  induction bs as [| b bs IH]; intros st k m Hsel Hm Hu; cbv zeta.
  - cbn [clicks ui_ret fst snd]. split; [reflexivity |].
    exists m, []. rewrite app_nil_r. cbn [length].
    rewrite Nat.add_0_r. split; [exact Hsel |]. split; [exact Hm |].
    split; [exact Hu |]. split; [reflexivity |]. split; [reflexivity |].
    split; [constructor | reflexivity].
  - destruct (on_click_selected b st k m Hsel Hm)
      as (ev & s & new & Hs & Hclick & Hnew & _).
    set (m1 := mutated (button_operation b k m) k
                 (clock (match_service st)) m) in *.
    set (st1 := mkApp (committed (match_service st) k m1 ev)
                  (shown s (scoring_ui st))
                  (notifications st ++ new)%list (logged st)) in *.
    assert (Hstep : clicks (b :: bs) st = clicks bs st1).
    { cbn [clicks]. unfold ui_bind. now rewrite Hclick. }
    assert (Hm1 : Match_valid m1)
      by (apply mutated_valid;
          [apply button_operation_valid; exact Hm | exact Hm]).
    destruct (IH st1 k m1 (selected_committed _ _ _ _) Hm1
                (shown_displays _ _ _ (displays_laid_out _ _ Hu) Hs))
      as (Hok & m' & new' & Hsel' & Hm' & Hu' & Hlog & Hns & Herr & Hlen).
    rewrite Hstep. split; [exact Hok |].
    exists m', (new ++ new')%list.
    split; [exact Hsel' |]. split; [exact Hm' |]. split; [exact Hu' |].
    split; [exact Hlog |].
    split; [rewrite Hns; subst st1; cbn [notifications];
            now rewrite app_assoc |].
    split; [apply Forall_app; split; assumption |].
    rewrite Hlen. subst st1.
    cbn [match_service committed match_events length].
    rewrite length_app. cbn [length]. lia.
Qed.

Lemma clicks_keep_the_page_sound_witness :
  selected (match_service opened_app) 1 first_match /\
  Match_valid first_match /\
  displays (scoring_ui opened_app) first_match /\
  fst (clicks [BluePlus3; RedGamJeom; NextRoundButton; StartButton;
               ResetButton] opened_app) = Ok tt.
Proof.
  split; [exact opened_app_selected |]. split; [exact first_match_valid |].
  split; [exact opened_app_displays |].
  exact (proj1 (clicks_keep_the_page_sound
                  [BluePlus3; RedGamJeom; NextRoundButton; StartButton;
                   ResetButton] opened_app 1 first_match
                  opened_app_selected first_match_valid
                  opened_app_displays)).
Defined.

(** ** Lengths of notes *)

(** The length bound on notes counts characters, as the schema does: a
    note of 251 two-byte characters, 502 bytes long, is accepted, and one
    of 501 plain characters is refused. *)
Example notes_are_measured_in_characters :
  let note := String.concat "" (replicate 251 "é") in
  String.length note = 502%nat /\ str_len note = 251%nat /\
  MatchReset_init 1 (Some note) = Ok (MatchReset.mk 1 (Some note)) /\
  MatchReset_init 1 (Some (String.concat "" (replicate 501 "x")))
  = Raise (ValidationError ["notes"]).
Proof. cbv zeta. repeat split; vm_compute; reflexivity. Qed.
